(** * Shared-folder registry and exposure resolver

    A shallow embedding of [src/backend/db/shared_folders.py]: the
    [SharedFolderOperations] class over the SQLite table
    [agent_shared_folder_config], the permission collaborator it is
    constructed with, and the two Docker naming helpers.

    - The table is the list of its rows in storage order; every SQL
      statement of the source is written out as the list operation it
      performs ([SELECT .. WHERE] is a filter, [fetchone] the head of the
      result set, [UPDATE] a map, [INSERT] an append, [DELETE] a filter
      whose [rowcount] is the number of rows removed, [ORDER BY
      agent_name] a sort under the byte-wise order of SQLite's default
      BINARY collation).
    - The boolean columns hold what sqlite3 stores for a Python [bool]:
      the integers 1 and 0.  Reading applies Python's [bool(..)].
    - Timestamps are stored as ISO-8601 text.  A [datetime] is represented
      by that text, so [fromisoformat] is its constructor and [isoformat]
      the projection.
    - [is_permitted] may raise: lookups run in an error monad, and an
      exception leaves the enclosing function the way Python propagates
      it. *)

From Stdlib Require Import String Ascii List ZArith NArith Bool Arith Lia.
From Stdlib Require Import Sorting.Sorted Sorting.Permutation.
Import ListNotations.

Local Open Scope list_scope.

(** ** Exceptions *)

(** A raised Python exception, identified by its message. *)
Definition exn : Type := string.

Inductive result (A : Type) : Type :=
| Ok (a : A)
| Raised (e : exn).

Arguments Ok {A} a.
Arguments Raised {A} e.

Definition bind {A B : Type} (m : result A) (k : A -> result B) : result B :=
  match m with
  | Ok a => k a
  | Raised e => Raised e
  end.

Notation "x <- m ;; k" := (bind m (fun x => k))
  (at level 61, m at next level, right associativity).

(** ** Data model *)

(** One row of [agent_shared_folder_config], with the columns the SQL
    statements of the source name. *)
Module ConfigRow.
Record t : Type := mk {
  agent_name : string;
  expose_enabled : Z;
  consume_enabled : Z;
  created_at : string;
  updated_at : string
}.
End ConfigRow.

(** The table, rows in storage order. *)
Definition table : Type := list ConfigRow.t.

Inductive datetime : Type :=
| fromisoformat (iso : string).

Definition isoformat (d : datetime) : string :=
  match d with fromisoformat iso => iso end.

(** Modelled from the spec: the [SharedFolderConfig] class of [db_models],
    which is not among the sources.  Its fields are those of the data
    model (agent_name, expose_enabled, consume_enabled, created_at,
    updated_at), the keyword arguments the source constructs it with. *)
Record SharedFolderConfig : Type := {
  agent_name : string;
  expose_enabled : bool;
  consume_enabled : bool;
  created_at : datetime;
  updated_at : datetime
}.

(** Python's [bool(n)] on an integer column value. *)
Definition bool_of_int (n : Z) : bool := negb (n =? 0)%Z.

(** What sqlite3 binds for a Python [bool] parameter. *)
Definition int_of_bool (b : bool) : Z := if b then 1%Z else 0%Z.

(** ** SQL building blocks *)

(** [WHERE agent_name = ?] *)
Definition where_agent_name (name : string) (row : ConfigRow.t) : bool :=
  (ConfigRow.agent_name row =? name)%string.

(** [SELECT agent_name, expose_enabled, consume_enabled, created_at,
    updated_at FROM agent_shared_folder_config WHERE agent_name = ?] *)
Definition select_config (conn : table) (name : string) : list ConfigRow.t :=
  filter (where_agent_name name) conn.

(** [cursor.fetchone()]: the first row of the result set, if any. *)
Definition fetchone {A : Type} (rows : list A) : option A := hd_error rows.

(** [UPDATE .. SET expose_enabled = ?, consume_enabled = ?, updated_at = ?
    WHERE agent_name = ?] *)
Definition update_config (conn : table) (new_expose new_consume : bool)
    (now : string) (name : string) : table :=
  map (fun row =>
         if where_agent_name name row
         then ConfigRow.mk (ConfigRow.agent_name row) (int_of_bool new_expose)
                     (int_of_bool new_consume) (ConfigRow.created_at row) now
         else row) conn.

(** [INSERT INTO agent_shared_folder_config (..) VALUES (?, ?, ?, ?, ?)] *)
Definition insert_config (conn : table) (name : string)
    (new_expose new_consume : bool) (created updated : string) : table :=
  conn ++ [ConfigRow.mk name (int_of_bool new_expose) (int_of_bool new_consume)
                  created updated].

(** [DELETE FROM agent_shared_folder_config WHERE agent_name = ?] and the
    cursor's [rowcount]. *)
Definition delete_config (conn : table) (name : string) : table * nat :=
  (filter (fun row => negb (where_agent_name name row)) conn,
   length (filter (where_agent_name name) conn)).

(** [ORDER BY agent_name] on a one-column result set: insertion into an
    already ordered prefix, under the byte-wise order on text. *)
Fixpoint insert_ordered (name : string) (sorted : list string) : list string :=
  match sorted with
  | [] => [name]
  | head :: rest =>
      if (name <=? head)%string then name :: head :: rest
      else head :: insert_ordered name rest
  end.

Fixpoint order_by_agent_name (names : list string) : list string :=
  match names with
  | [] => []
  | name :: rest => insert_ordered name (order_by_agent_name rest)
  end.

(** ** The class [SharedFolderOperations] *)

Module SharedFolderOperations.

Definition _row_to_config (row : ConfigRow.t) : SharedFolderConfig :=
  {| agent_name := ConfigRow.agent_name row;
     expose_enabled := bool_of_int (ConfigRow.expose_enabled row);
     consume_enabled := bool_of_int (ConfigRow.consume_enabled row);
     created_at := fromisoformat (ConfigRow.created_at row);
     updated_at := fromisoformat (ConfigRow.updated_at row) |}.

Definition get_shared_folder_config (conn : table) (agent_name : string)
    : option SharedFolderConfig :=
  match fetchone (select_config conn agent_name) with
  | Some row => Some (_row_to_config row)
  | None => None
  end.

(** [utcnow] is the reading of [datetime.utcnow()] taken by the call. *)
Definition upsert_shared_folder_config (utcnow : datetime) (conn : table)
    (agent_name : string) (expose_enabled consume_enabled : option bool)
    : table * SharedFolderConfig :=
  let now := isoformat utcnow in
  match fetchone (select_config conn agent_name) with
  | Some existing =>
      let new_expose :=
        match expose_enabled with
        | Some b => b
        | None => bool_of_int (ConfigRow.expose_enabled existing)
        end in
      let new_consume :=
        match consume_enabled with
        | Some b => b
        | None => bool_of_int (ConfigRow.consume_enabled existing)
        end in
      (update_config conn new_expose new_consume now agent_name,
       Build_SharedFolderConfig agent_name new_expose new_consume
         (fromisoformat (ConfigRow.created_at existing)) (fromisoformat now))
  | None =>
      let new_expose :=
        match expose_enabled with Some b => b | None => false end in
      let new_consume :=
        match consume_enabled with Some b => b | None => false end in
      (insert_config conn agent_name new_expose new_consume now now,
       Build_SharedFolderConfig agent_name new_expose new_consume
         (fromisoformat now) (fromisoformat now))
  end.

Definition delete_shared_folder_config (conn : table) (agent_name : string)
    : table * bool :=
  let (conn', rowcount) := delete_config conn agent_name in
  (conn', 0 <? rowcount).

(** [SELECT agent_name .. WHERE expose_enabled = 1 ORDER BY agent_name] *)
Definition get_agents_exposing_folders (conn : table) : list string :=
  order_by_agent_name
    (map ConfigRow.agent_name
       (filter (fun row => (ConfigRow.expose_enabled row =? 1)%Z) conn)).

(** The query of [get_consuming_agents]: [SELECT agent_name .. WHERE
    consume_enabled = 1 AND agent_name != ? ORDER BY agent_name]. *)
Definition select_consuming_agents (conn : table) (source_agent : string)
    : list string :=
  order_by_agent_name
    (map ConfigRow.agent_name
       (filter (fun row => (ConfigRow.consume_enabled row =? 1)%Z
                           && negb (ConfigRow.agent_name row =? source_agent)%string)
               conn)).

Section WithPermissionOps.

(** [self._permission_ops.is_permitted], injected by [__init__]. *)
Variable is_permitted : string -> string -> result bool.

(** The [for agent in exposing_agents] loop; [available] is the list
    being appended to. *)
Fixpoint available_loop (requesting_agent : string)
    (exposing_agents available : list string) : result (list string) :=
  match exposing_agents with
  | [] => Ok available
  | agent :: rest =>
      if negb (agent =? requesting_agent)%string then
        permitted <- is_permitted requesting_agent agent ;;
        if (permitted : bool)
        then available_loop requesting_agent rest (available ++ [agent])
        else available_loop requesting_agent rest available
      else available_loop requesting_agent rest available
  end.

Definition get_available_shared_folders (conn : table)
    (requesting_agent : string) : result (list string) :=
  let exposing_agents := get_agents_exposing_folders conn in
  available_loop requesting_agent exposing_agents [].

(** The [for agent in consuming_agents] loop. *)
Fixpoint consuming_loop (source_agent : string)
    (consuming_agents available : list string) : result (list string) :=
  match consuming_agents with
  | [] => Ok available
  | agent :: rest =>
      permitted <- is_permitted agent source_agent ;;
      if (permitted : bool)
      then consuming_loop source_agent rest (available ++ [agent])
      else consuming_loop source_agent rest available
  end.

Definition get_consuming_agents (conn : table) (source_agent : string)
    : result (list string) :=
  let consuming_agents := select_consuming_agents conn source_agent in
  consuming_loop source_agent consuming_agents [].

End WithPermissionOps.

Definition get_shared_volume_name (agent_name : string) : string :=
  ("agent-" ++ agent_name ++ "-shared")%string.

Definition get_shared_mount_path (source_agent : string) : string :=
  ("/home/developer/shared-in/" ++ source_agent)%string.

End SharedFolderOperations.

Import SharedFolderOperations.

(** ** Registry states *)

(** A permission directory that answers every lookup. *)
Definition total (p : string -> string -> bool) : string -> string -> result bool :=
  fun caller target => Ok (p caller target).

Definition is_flag (n : Z) : bool := (n =? 0)%Z || (n =? 1)%Z.

Fixpoint unique_names (names : list string) : bool :=
  match names with
  | [] => true
  | name :: rest => negb (existsb (String.eqb name) rest) && unique_names rest
  end.

(** The invariant of the table: [agent_name] is a key and both flags hold
    0 or 1. *)
Definition table_ok (conn : table) : bool :=
  unique_names (map ConfigRow.agent_name conn)
  && forallb (fun row => is_flag (ConfigRow.expose_enabled row)
                         && is_flag (ConfigRow.consume_enabled row)) conn.

(** The tables this module can produce, starting from the empty one. *)
Inductive reachable : table -> Prop :=
| reachable_empty : reachable []
| reachable_upsert utcnow conn name expose consume :
    reachable conn ->
    reachable (fst (upsert_shared_folder_config utcnow conn name expose consume))
| reachable_delete conn name :
    reachable conn ->
    reachable (fst (delete_shared_folder_config conn name)).

(** The registry-level reading of a flag: what [get_shared_folder_config]
    reports for the agent. *)
Definition exposes (conn : table) (name : string) : Prop :=
  exists config, get_shared_folder_config conn name = Some config
                 /\ expose_enabled config = true.

Definition consumes (conn : table) (name : string) : Prop :=
  exists config, get_shared_folder_config conn name = Some config
                 /\ consume_enabled config = true.

(** The specification's reading of a lookup, to compare the code with: a
    lookup that fails counts as "not permitted". *)
Definition fail_closed (is_permitted : string -> string -> result bool)
    (caller target : string) : bool :=
  match is_permitted caller target with
  | Ok permitted => permitted
  | Raised _ => false
  end.

(** [available_mounts] in the specification's words: the exposing agents,
    without the requester, kept when the fail-closed lookup allows them. *)
Definition spec_available_mounts (is_permitted : string -> string -> result bool)
    (conn : table) (requesting_agent : string) : list string :=
  filter (fun candidate => negb (candidate =? requesting_agent)%string
                           && fail_closed is_permitted requesting_agent candidate)
         (get_agents_exposing_folders conn).

(** [consumers_of] in the specification's words. *)
Definition spec_consumers_of (is_permitted : string -> string -> result bool)
    (conn : table) (source_agent : string) : list string :=
  filter (fun candidate => fail_closed is_permitted candidate source_agent)
         (select_consuming_agents conn source_agent).

(** Ascending in the byte-wise order on names. *)
Definition ascending (names : list string) : Prop :=
  StronglySorted (fun a b => (a <=? b)%string = true) names.

(** The scenario of the specification's example. *)
Definition t0 : datetime := fromisoformat "2024-01-01T00:00:00".
Definition t1 : datetime := fromisoformat "2024-01-02T12:30:00.000250".

Definition example_table : table :=
  let c1 := fst (upsert_shared_folder_config t0 [] "gamma" (Some true) (Some true)) in
  let c2 := fst (upsert_shared_folder_config t0 c1 "alpha" (Some true) None) in
  fst (upsert_shared_folder_config t1 c2 "beta" None (Some true)).

Definition example_permissions (caller target : string) : bool :=
  ((caller =? "beta") && (target =? "alpha")
   || (caller =? "gamma") && (target =? "alpha"))%string.

(** A permission directory whose lookup for the edge beta -> alpha fails
    and which allows every other edge. *)
Definition failing_permissions (caller target : string) : result bool :=
  if ((caller =? "beta") && (target =? "alpha"))%string
  then Raised "permission lookup failed"%string
  else Ok true.

(** Two directories that differ only on self-edges. *)
Definition allow_all (caller target : string) : bool := true.

Definition allow_others (caller target : string) : bool :=
  negb (caller =? target)%string.

(** ** System settings ([src/backend/db/settings.py]) *)

(** One row of [system_settings], with the columns the SQL statements of
    the source name. *)
Module SettingRow.
Record t : Type := mk {
  key : string;
  value : string;
  updated_at : string
}.
End SettingRow.

Definition settings_table : Type := list SettingRow.t.

(** The [SystemSetting] model of [db_models], which is not among the
    sources, with the fields the source constructs it with. *)
Module SystemSetting.
Record t : Type := mk {
  key : string;
  value : string;
  updated_at : datetime
}.
End SystemSetting.

(** A Python [dict] from text to text: its items in insertion order.
    Assigning to a key that is present replaces the value in place. *)
Definition pydict : Type := list (string * string).

Fixpoint dict_setitem (d : pydict) (k v : string) : pydict :=
  match d with
  | [] => [(k, v)]
  | (k', v') :: rest =>
      if (k' =? k)%string then (k', v) :: rest
      else (k', v') :: dict_setitem rest k v
  end.

Fixpoint dict_get (d : pydict) (k : string) : option string :=
  match d with
  | [] => None
  | (k', v') :: rest => if (k' =? k)%string then Some v' else dict_get rest k
  end.

(** [WHERE key = ?] *)
Definition where_key (key : string) (row : SettingRow.t) : bool :=
  (SettingRow.key row =? key)%string.

(** [INSERT OR REPLACE INTO system_settings (key, value, updated_at)
    VALUES (?, ?, ?)].  The schema is not among the sources; [key] is the
    primary key of the table (the source calls the statement an upsert and
    tests/test_settings.py expects one row per key after two writes), so
    the rows in conflict on [key] are deleted and the new row is inserted. *)
Definition insert_or_replace_setting (conn : settings_table)
    (key value now : string) : settings_table :=
  filter (fun row => negb (where_key key row)) conn
  ++ [SettingRow.mk key value now].

(** [ORDER BY key] on the rows of [system_settings]. *)
Fixpoint insert_by_key (row : SettingRow.t) (sorted : list SettingRow.t)
    : list SettingRow.t :=
  match sorted with
  | [] => [row]
  | head :: rest =>
      if (SettingRow.key row <=? SettingRow.key head)%string
      then row :: head :: rest
      else head :: insert_by_key row rest
  end.

Fixpoint order_by_key (rows : list SettingRow.t) : list SettingRow.t :=
  match rows with
  | [] => []
  | row :: rest => insert_by_key row (order_by_key rest)
  end.

(** The class [SettingsOperations]. *)
Module SettingsOperations.

Definition _row_to_setting (row : SettingRow.t) : SystemSetting.t :=
  SystemSetting.mk (SettingRow.key row) (SettingRow.value row)
                   (fromisoformat (SettingRow.updated_at row)).

Definition get_setting (conn : settings_table) (key : string)
    : option SystemSetting.t :=
  match fetchone (filter (where_key key) conn) with
  | Some row => Some (_row_to_setting row)
  | None => None
  end.

(** [default] is Python's [default: str = None]. *)
Definition get_setting_value (conn : settings_table) (key : string)
    (default : option string) : option string :=
  match get_setting conn key with
  | Some setting => Some (SystemSetting.value setting)
  | None => default
  end.

Definition set_setting (utcnow : datetime) (conn : settings_table)
    (key value : string) : settings_table * SystemSetting.t :=
  let now := isoformat utcnow in
  (insert_or_replace_setting conn key value now,
   SystemSetting.mk key value (fromisoformat now)).

Definition delete_setting (conn : settings_table) (key : string)
    : settings_table * bool :=
  let rowcount := length (filter (where_key key) conn) in
  (filter (fun row => negb (where_key key row)) conn, 0 <? rowcount).

Definition get_all_settings (conn : settings_table) : list SystemSetting.t :=
  let rows := order_by_key conn in
  map _row_to_setting rows.

(** [{s.key: s.value for s in settings}] *)
Definition get_settings_dict (conn : settings_table) : pydict :=
  let settings := get_all_settings conn in
  fold_left (fun d s => dict_setitem d (SystemSetting.key s) (SystemSetting.value s))
            settings [].

End SettingsOperations.

Definition example_settings : settings_table :=
  let c1 := fst (SettingsOperations.set_setting t0 [] "trinity_prompt" "first") in
  let c2 := fst (SettingsOperations.set_setting t0 c1 "banner" "hello") in
  fst (SettingsOperations.set_setting t1 c2 "trinity_prompt" "second").

(** ** Settings routes ([src/backend/routers/settings.py]) *)

(** Values of the audit [details] dictionaries. *)
Inductive pyvalue : Type :=
| PyStr (s : string)
| PyInt (n : Z)
| PyBool (b : bool).

(** Python's [len] of a [str] held as UTF-8 bytes: the number of code
    points, that is of bytes that are not continuation bytes. *)
Definition is_continuation_byte (c : ascii) : bool :=
  ((128 <=? N_of_ascii c) && (N_of_ascii c <? 192))%N.

Fixpoint py_len (s : string) : Z :=
  match s with
  | EmptyString => 0%Z
  | String c rest =>
      if is_continuation_byte c then py_len rest else (1 + py_len rest)%Z
  end.

(** The fields of [models.User] the routes read. *)
Module User.
Record t : Type := mk {
  username : string;
  role : string
}.
End User.

(** [request.client]: absent, or an address with a [host]. *)
Module Request.
Record t : Type := mk {
  client : option string
}.
End Request.

(** The keyword arguments the routes pass to [log_audit_event]; an
    argument that a call leaves out is [None]. *)
Module AuditEvent.
Record t : Type := mk {
  event_type : string;
  action : string;
  user_id : string;
  resource : option string;
  ip_address : option string;
  result : string;
  severity : option string;
  details : option (list (string * pyvalue))
}.
End AuditEvent.

(** How a route ends: it returns, raises an [HTTPException], or lets
    another exception escape. *)
Inductive response (A : Type) : Type :=
| Returned (a : A)
| HTTPException (status_code : Z) (detail : string)
| Escaped (e : exn).

Arguments Returned {A} a.
Arguments HTTPException {A} status_code detail.
Arguments Escaped {A} e.

(** What the routes act on: the settings table behind [db] and the events
    the audit sink has recorded. *)
Record backend : Type := {
  db : settings_table;
  audit_trail : list AuditEvent.t
}.

(** An exception raised by a collaborator, told apart the way the
    [except] clauses of the routes tell it apart: an [HTTPException] with
    its status and detail, or another [Exception] with its message. *)
Inductive pyexn : Type :=
| PyHTTPException (status_code : Z) (detail : string)
| PyException (message : string).

(** A call that completes or raises. *)
Inductive attempt (A : Type) : Type :=
| Completed (a : A)
| Raises (e : pyexn).

Arguments Completed {A} a.
Arguments Raises {A} e.

(** An exception that nothing catches leaves the route as it is. *)
Definition propagate {A : Type} (e : pyexn) : response A :=
  match e with
  | PyHTTPException status_code detail => HTTPException status_code detail
  | PyException message => Escaped message
  end.

Module SettingsRouter.

Definition require_admin (current_user : User.t) : response unit :=
  if negb (User.role current_user =? "admin")%string
  then HTTPException 403 "Admin access required"
  else Returned tt.

(** [request.client.host if request.client else None] *)
Definition ip_address (request : Request.t) : option string :=
  match Request.client request with
  | Some host => Some host
  | None => None
  end.

Section WithAuditSink.

(** [str(e)] of an [HTTPException]: the web framework defines it, and the
    framework is not among the sources. *)
Variable http_exception_str : Z -> string -> string.

(** Modelled from the spec: the audit-logging sink [log_audit_event] of
    [services.audit_service], an external collaborator that is not among
    the sources.  A call records the event or raises; [audit_failure]
    gives the exception for the events it fails on. *)
Variable audit_failure : AuditEvent.t -> option pyexn.

(** [str(e)] *)
Definition py_str (e : pyexn) : string :=
  match e with
  | PyHTTPException status_code detail => http_exception_str status_code detail
  | PyException message => message
  end.

Definition log_audit_event (event : AuditEvent.t) (trail : list AuditEvent.t)
    : attempt (list AuditEvent.t) :=
  match audit_failure event with
  | Some e => Raises e
  | None => Completed (trail ++ [event])
  end.

(** [except Exception as e] catches whatever the sink raises. *)
Definition get_all_settings (request : Request.t) (current_user : User.t)
    (state : backend) : backend * response (list SystemSetting.t) :=
  match require_admin current_user with
  | HTTPException status_code detail => (state, HTTPException status_code detail)
  | Escaped e => (state, Escaped e)
  | Returned _ =>
      let settings := SettingsOperations.get_all_settings (db state) in
      match log_audit_event
              (AuditEvent.mk "system_settings" "list" (User.username current_user)
                 None (ip_address request) "success" None None)
              (audit_trail state) with
      | Completed trail =>
          ({| db := db state; audit_trail := trail |}, Returned settings)
      | Raises e =>
          (state, HTTPException 500 ("Failed to get settings: " ++ py_str e)%string)
      end
  end.

(** [except HTTPException: raise] comes first: the route's own 404 and an
    [HTTPException] of the sink leave the route unchanged; any other
    exception becomes a 500. *)
Definition get_setting (key : string) (request : Request.t) (current_user : User.t)
    (state : backend) : backend * response SystemSetting.t :=
  match require_admin current_user with
  | HTTPException status_code detail => (state, HTTPException status_code detail)
  | Escaped e => (state, Escaped e)
  | Returned _ =>
      match SettingsOperations.get_setting (db state) key with
      | None =>
          (state, HTTPException 404 ("Setting '" ++ key ++ "' not found")%string)
      | Some setting =>
          match log_audit_event
                  (AuditEvent.mk "system_settings" "read" (User.username current_user)
                     (Some ("setting:" ++ key)%string) (ip_address request)
                     "success" None None)
                  (audit_trail state) with
          | Completed trail =>
              ({| db := db state; audit_trail := trail |}, Returned setting)
          | Raises e =>
              match e with
              | PyHTTPException status_code detail =>
                  (state, HTTPException status_code detail)
              | PyException _ =>
                  (state,
                   HTTPException 500 ("Failed to get setting: " ++ py_str e)%string)
              end
          end
      end
  end.

(** [value] is [body.value]; [utcnow] the clock reading [set_setting]
    takes.  The handler of [except Exception as e] calls the sink again,
    unguarded: what that call raises leaves the route. *)
Definition update_setting (utcnow : datetime) (key value : string)
    (request : Request.t) (current_user : User.t) (state : backend)
    : backend * response SystemSetting.t :=
  match require_admin current_user with
  | HTTPException status_code detail => (state, HTTPException status_code detail)
  | Escaped e => (state, Escaped e)
  | Returned _ =>
      let (db', setting) := SettingsOperations.set_setting utcnow (db state) key value in
      match log_audit_event
              (AuditEvent.mk "system_settings" "update" (User.username current_user)
                 (Some ("setting:" ++ key)%string) (ip_address request)
                 "success" None
                 (Some [("key"%string, PyStr key);
                        ("value_length"%string, PyInt (py_len value))]))
              (audit_trail state) with
      | Completed trail => ({| db := db'; audit_trail := trail |}, Returned setting)
      | Raises e =>
          match log_audit_event
                  (AuditEvent.mk "system_settings" "update" (User.username current_user)
                     (Some ("setting:" ++ key)%string) (ip_address request)
                     "failed" (Some "error"%string)
                     (Some [("error"%string, PyStr (py_str e))]))
                  (audit_trail state) with
          | Completed trail =>
              ({| db := db'; audit_trail := trail |},
               HTTPException 500 ("Failed to update setting: " ++ py_str e)%string)
          | Raises e' =>
              ({| db := db'; audit_trail := audit_trail state |}, propagate e')
          end
      end
  end.

Definition delete_setting (key : string) (request : Request.t) (current_user : User.t)
    (state : backend) : backend * response (list (string * pyvalue)) :=
  match require_admin current_user with
  | HTTPException status_code detail => (state, HTTPException status_code detail)
  | Escaped e => (state, Escaped e)
  | Returned _ =>
      let (db', deleted) := SettingsOperations.delete_setting (db state) key in
      match log_audit_event
              (AuditEvent.mk "system_settings" "delete" (User.username current_user)
                 (Some ("setting:" ++ key)%string) (ip_address request)
                 "success" None
                 (Some [("deleted"%string, PyBool deleted)]))
              (audit_trail state) with
      | Completed trail =>
          ({| db := db'; audit_trail := trail |},
           Returned [("success"%string, PyBool true); ("deleted"%string, PyBool deleted)])
      | Raises e =>
          match log_audit_event
                  (AuditEvent.mk "system_settings" "delete" (User.username current_user)
                     (Some ("setting:" ++ key)%string) (ip_address request)
                     "failed" (Some "error"%string)
                     (Some [("error"%string, PyStr (py_str e))]))
                  (audit_trail state) with
          | Completed trail =>
              ({| db := db'; audit_trail := trail |},
               HTTPException 500 ("Failed to delete setting: " ++ py_str e)%string)
          | Raises e' =>
              ({| db := db'; audit_trail := audit_trail state |}, propagate e')
          end
      end
  end.

End WithAuditSink.

End SettingsRouter.

(** An audit sink that records everything, one that is down, and one
    that answers every event with an [HTTPException]. *)
Definition audit_up (event : AuditEvent.t) : option pyexn := None.

Definition audit_down (event : AuditEvent.t) : option pyexn :=
  Some (PyException "audit logger unreachable").

Definition audit_rejecting (event : AuditEvent.t) : option pyexn :=
  Some (PyHTTPException 404 "audit stream not found").

(** A sample of the framework's [str] of an [HTTPException]. *)
Definition status_and_detail (status_code : Z) (detail : string) : string :=
  (if (status_code =? 404)%Z then "404: " else "error: ") ++ detail.

Definition admin_user : User.t := User.mk "root" "admin".
Definition plain_user : User.t := User.mk "guest" "user".
Definition local_request : Request.t := Request.mk (Some "127.0.0.1"%string).

Definition example_backend : backend :=
  {| db := example_settings; audit_trail := [] |}.

(** * Properties *)

(** ** The byte-wise order on names *)

Section NameOrder.

Local Open Scope string_scope.

Lemma name_leb_refl (a : string) : (a <=? a) = true.
Proof.
  destruct (String.leb_total a a); assumption.
Qed.

Lemma name_leb_trans (a b c : string) :
  (a <=? b) = true -> (b <=? c) = true -> (a <=? c) = true.
Proof.
  unfold String.leb. revert b c.
  induction a as [|x a IH]; intros [|y b] [|z c]; simpl; try congruence.
  unfold Ascii.compare.
  destruct (N.compare_spec (N_of_ascii x) (N_of_ascii y)) as [Hxy|Hxy|Hxy];
    destruct (N.compare_spec (N_of_ascii y) (N_of_ascii z)) as [Hyz|Hyz|Hyz];
    destruct (N.compare_spec (N_of_ascii x) (N_of_ascii z)) as [Hxz|Hxz|Hxz];
    try congruence; try lia; auto.
  apply IH.
Qed.

Lemma ascending_cons_inv (a : string) (l : list string) :
  ascending (a :: l) ->
  ascending l /\ Forall (fun b => (a <=? b) = true) l.
Proof.
  intros H. inversion H; subst. split; assumption.
Qed.

End NameOrder.

(** ** [ORDER BY agent_name] *)

Lemma insert_ordered_perm (name : string) (l : list string) :
  Permutation (insert_ordered name l) (name :: l).
Proof.
  induction l as [|head rest IH]; simpl.
  - apply Permutation_refl.
  - destruct (name <=? head)%string.
    + apply Permutation_refl.
    + eapply perm_trans; [apply perm_skip, IH | apply perm_swap].
Qed.

Lemma order_by_perm (l : list string) :
  Permutation (order_by_agent_name l) l.
Proof.
  induction l as [|name rest IH]; simpl.
  - constructor.
  - eapply perm_trans; [apply insert_ordered_perm | apply perm_skip, IH].
Qed.

Lemma order_by_In (l : list string) (x : string) :
  In x (order_by_agent_name l) <-> In x l.
Proof.
  split; apply Permutation_in;
    [apply order_by_perm | apply Permutation_sym, order_by_perm].
Qed.

Lemma insert_ordered_ascending (name : string) (l : list string) :
  ascending l -> ascending (insert_ordered name l).
Proof.
  unfold ascending.
  induction l as [|head rest IH]; intros Hl; simpl.
  - repeat constructor.
  - destruct (name <=? head)%string eqn:Hle.
    + constructor; [assumption|].
      constructor; [assumption|].
      inversion Hl as [|? ? _ Hall]; subst.
      eapply Forall_impl; [|exact Hall].
      intros b Hb. simpl in Hb. eapply name_leb_trans; eassumption.
    + inversion Hl as [|? ? Hrest Hall]; subst.
      constructor; [apply IH; assumption|].
      assert (Hhead : (head <=? name)%string = true).
      { destruct (String.leb_total name head); congruence. }
      eapply Permutation_Forall.
      * apply Permutation_sym, insert_ordered_perm.
      * constructor; assumption.
Qed.

Lemma order_by_ascending (l : list string) :
  ascending (order_by_agent_name l).
Proof.
  induction l as [|name rest IH]; simpl.
  - constructor.
  - apply insert_ordered_ascending, IH.
Qed.

(** An ascending list is determined by its elements: whatever order the
    rows are scanned in, [ORDER BY] yields the same sequence. *)
Lemma ascending_unique (l l' : list string) :
  ascending l -> ascending l' -> Permutation l l' -> l = l'.
Proof.
  revert l'. induction l as [|a l IH]; intros l' Hl Hl' Hp.
  - apply Permutation_nil in Hp. congruence.
  - destruct l' as [|b l'].
    + apply Permutation_sym, Permutation_nil in Hp. discriminate.
    + destruct (ascending_cons_inv _ _ Hl) as [Hl1 Ha].
      destruct (ascending_cons_inv _ _ Hl') as [Hl1' Hb].
      assert (Hab : a = b).
      { apply String.leb_antisym.
        - assert (Hin : In b (a :: l))
            by (eapply Permutation_in; [apply Permutation_sym, Hp | left; reflexivity]).
          destruct Hin as [<-|Hin]; [apply name_leb_refl|].
          rewrite Forall_forall in Ha. apply Ha, Hin.
        - assert (Hin : In a (b :: l'))
            by (eapply Permutation_in; [apply Hp | left; reflexivity]).
          destruct Hin as [<-|Hin]; [apply name_leb_refl|].
          rewrite Forall_forall in Hb. apply Hb, Hin. }
      subst b. f_equal.
      apply IH; try assumption.
      eapply Permutation_cons_inv; eassumption.
Qed.

Lemma order_by_scan_order (l l' : list string) :
  Permutation l l' -> order_by_agent_name l = order_by_agent_name l'.
Proof.
  intros Hp. apply ascending_unique; try apply order_by_ascending.
  eapply perm_trans; [apply order_by_perm|].
  eapply perm_trans; [exact Hp|].
  apply Permutation_sym, order_by_perm.
Qed.

Lemma ascending_filter (f : string -> bool) (l : list string) :
  ascending l -> ascending (filter f l).
Proof.
  unfold ascending. induction 1 as [|a l Hl IH Ha]; simpl.
  - constructor.
  - destruct (f a); [|assumption].
    constructor; [assumption|].
    rewrite Forall_forall in *. intros b Hb.
    apply filter_In in Hb. apply Ha, Hb.
Qed.

(** ** Flags and timestamps *)

Lemma bool_of_int_of_bool (b : bool) : bool_of_int (int_of_bool b) = b.
Proof. destruct b; reflexivity. Qed.

Lemma is_flag_int_of_bool (b : bool) : is_flag (int_of_bool b) = true.
Proof. destruct b; reflexivity. Qed.

Lemma is_flag_true_iff (n : Z) :
  is_flag n = true -> (bool_of_int n = true <-> n = 1%Z).
Proof.
  unfold is_flag, bool_of_int. intros H.
  apply orb_true_iff in H. destruct H as [H|H]; apply Z.eqb_eq in H; subst;
    simpl; split; intros; congruence.
Qed.

Lemma fromisoformat_isoformat (d : datetime) : fromisoformat (isoformat d) = d.
Proof. destruct d; reflexivity. Qed.

(** ** Point queries on the table *)

Lemma fetchone_map {A B : Type} (g : A -> B) (rows : list A) :
  fetchone (map g rows) = option_map g (fetchone rows).
Proof. destruct rows; reflexivity. Qed.

Lemma fetchone_none {A : Type} (rows : list A) :
  fetchone rows = None <-> rows = [].
Proof. destruct rows; simpl; split; intros; congruence. Qed.

Lemma fetchone_select_sound (conn : table) (name : string) (row : ConfigRow.t) :
  fetchone (select_config conn name) = Some row ->
  In row conn /\ ConfigRow.agent_name row = name.
Proof.
  intros H.
  assert (Hin : In row (select_config conn name)).
  { destruct (select_config conn name); simpl in H; [discriminate|].
    injection H as ->. left; reflexivity. }
  apply filter_In in Hin. destruct Hin as [Hin Hname].
  split; [assumption|]. apply String.eqb_eq, Hname.
Qed.

Lemma select_config_app (conn conn' : table) (name : string) :
  select_config (conn ++ conn') name
  = select_config conn name ++ select_config conn' name.
Proof. apply filter_app. Qed.

(** [UPDATE] never touches the key, so it commutes with the selection. *)
Lemma select_update (conn : table) (e c : bool) (now name other : string) :
  select_config (update_config conn e c now name) other
  = map (fun row =>
           if where_agent_name name row
           then ConfigRow.mk (ConfigRow.agent_name row) (int_of_bool e) (int_of_bool c)
                       (ConfigRow.created_at row) now
           else row) (select_config conn other).
Proof.
  unfold select_config, update_config.
  induction conn as [|row conn IH]; simpl; [reflexivity|].
  assert (Hsame :
    where_agent_name other
      (if where_agent_name name row
       then ConfigRow.mk (ConfigRow.agent_name row) (int_of_bool e) (int_of_bool c)
                   (ConfigRow.created_at row) now
       else row) = where_agent_name other row).
  { destruct (where_agent_name name row); reflexivity. }
  rewrite Hsame. destruct (where_agent_name other row); simpl; rewrite IH; reflexivity.
Qed.

Lemma names_update (conn : table) (e c : bool) (now name : string) :
  map ConfigRow.agent_name (update_config conn e c now name) = map ConfigRow.agent_name conn.
Proof.
  unfold update_config. rewrite map_map. apply map_ext.
  intros row. destruct (where_agent_name name row); reflexivity.
Qed.

(** ** The table invariant *)

Lemma unique_names_NoDup (names : list string) :
  unique_names names = true <-> NoDup names.
Proof.
  induction names as [|name rest IH]; simpl.
  - split; [constructor | reflexivity].
  - rewrite andb_true_iff, negb_true_iff, NoDup_cons_iff, IH.
    assert (Hex : existsb (String.eqb name) rest = false <-> ~ In name rest).
    { rewrite <- not_true_iff_false, existsb_exists. split.
      - intros H Hin. apply H. exists name. split; [assumption | apply String.eqb_refl].
      - intros H [x [Hin Hx]]. apply String.eqb_eq in Hx. subst x. auto. }
    rewrite Hex. reflexivity.
Qed.

Lemma table_ok_spec (conn : table) :
  table_ok conn = true <->
  NoDup (map ConfigRow.agent_name conn)
  /\ Forall (fun row => is_flag (ConfigRow.expose_enabled row) = true
                        /\ is_flag (ConfigRow.consume_enabled row) = true) conn.
Proof.
  unfold table_ok.
  rewrite andb_true_iff, unique_names_NoDup, forallb_forall, Forall_forall.
  split; intros [Hn Hf]; (split; [assumption|]);
    intros row Hin; specialize (Hf row Hin).
  - apply andb_true_iff in Hf. assumption.
  - apply andb_true_iff. assumption.
Qed.

(** With [agent_name] a key, the row a point query fetches is the only
    row of that name. *)
Lemma fetchone_select_complete (conn : table) (name : string) (row : ConfigRow.t) :
  NoDup (map ConfigRow.agent_name conn) ->
  In row conn -> ConfigRow.agent_name row = name ->
  fetchone (select_config conn name) = Some row.
Proof.
  unfold select_config, where_agent_name.
  induction conn as [|first conn IH]; simpl; intros Hnd Hin Hname; [contradiction|].
  apply NoDup_cons_iff in Hnd. destruct Hnd as [Hfirst Hnd].
  destruct (String.eqb_spec (ConfigRow.agent_name first) name) as [Heq|Hne].
  - destruct Hin as [->|Hin]; [reflexivity|].
    exfalso. apply Hfirst. rewrite Heq, <- Hname. apply in_map, Hin.
  - destruct Hin as [->|Hin]; [contradiction|]. apply IH; assumption.
Qed.

Lemma fetchone_select_iff (conn : table) (name : string) (row : ConfigRow.t) :
  table_ok conn = true ->
  (fetchone (select_config conn name) = Some row
   <-> In row conn /\ ConfigRow.agent_name row = name).
Proof.
  intros Hok. apply table_ok_spec in Hok. destruct Hok as [Hnd _]. split.
  - apply fetchone_select_sound.
  - intros [Hin Hname]. apply fetchone_select_complete; assumption.
Qed.

Lemma table_ok_flags (conn : table) (row : ConfigRow.t) :
  table_ok conn = true -> In row conn ->
  is_flag (ConfigRow.expose_enabled row) = true
  /\ is_flag (ConfigRow.consume_enabled row) = true.
Proof.
  intros Hok Hin. apply table_ok_spec in Hok. destruct Hok as [_ Hf].
  rewrite Forall_forall in Hf. apply Hf, Hin.
Qed.

Lemma table_ok_update (conn : table) (e c : bool) (now name : string) :
  table_ok conn = true -> table_ok (update_config conn e c now name) = true.
Proof.
  rewrite !table_ok_spec, names_update. intros [Hnd Hf]. split; [assumption|].
  unfold update_config. rewrite Forall_map.
  eapply Forall_impl; [|exact Hf]. intros row Hrow.
  destruct (where_agent_name name row); [|assumption].
  simpl. split; apply is_flag_int_of_bool.
Qed.

Lemma table_ok_insert (conn : table) (name : string) (e c : bool) (created updated : string) :
  table_ok conn = true ->
  fetchone (select_config conn name) = None ->
  table_ok (insert_config conn name e c created updated) = true.
Proof.
  rewrite !table_ok_spec. intros [Hnd Hf] Hnone.
  unfold insert_config. rewrite map_app. simpl. split.
  - apply NoDup_rev in Hnd. rewrite <- (rev_involutive (_ ++ _)).
    apply NoDup_rev. rewrite rev_app_distr. simpl.
    constructor; [|assumption].
    rewrite <- in_rev. intros Hin. apply in_map_iff in Hin.
    destruct Hin as [row [Hname Hin]].
    apply fetchone_none in Hnone.
    assert (Hsel : In row (select_config conn name)).
    { apply filter_In. split; [assumption|]. apply String.eqb_eq, Hname. }
    rewrite Hnone in Hsel. contradiction.
  - apply Forall_app. split; [assumption|].
    constructor; [|constructor]. simpl. split; apply is_flag_int_of_bool.
Qed.

Lemma table_ok_upsert (utcnow : datetime) (conn : table) (name : string)
    (expose consume : option bool) :
  table_ok conn = true ->
  table_ok (fst (upsert_shared_folder_config utcnow conn name expose consume)) = true.
Proof.
  intros Hok. unfold upsert_shared_folder_config.
  destruct (fetchone (select_config conn name)) eqn:Hsel; simpl.
  - apply table_ok_update, Hok.
  - apply table_ok_insert; assumption.
Qed.

Lemma NoDup_names_filter (f : ConfigRow.t -> bool) (conn : table) :
  NoDup (map ConfigRow.agent_name conn) -> NoDup (map ConfigRow.agent_name (filter f conn)).
Proof.
  induction conn as [|row conn IH]; simpl; intros Hnd; [constructor|].
  apply NoDup_cons_iff in Hnd. destruct Hnd as [Hrow Hnd].
  destruct (f row); simpl; [|apply IH, Hnd].
  constructor; [|apply IH, Hnd].
  intros Hin. apply Hrow. apply in_map_iff in Hin.
  destruct Hin as [other [Hname Hin]]. apply filter_In in Hin.
  rewrite <- Hname. apply in_map, Hin.
Qed.

Lemma table_ok_delete (conn : table) (name : string) :
  table_ok conn = true ->
  table_ok (fst (delete_shared_folder_config conn name)) = true.
Proof.
  rewrite !table_ok_spec. intros [Hnd Hf]. simpl. split.
  - apply NoDup_names_filter, Hnd.
  - rewrite Forall_forall in *. intros row Hin.
    apply filter_In in Hin. apply Hf, Hin.
Qed.

(** Every table this module produces satisfies the invariant. *)
Lemma reachable_table_ok (conn : table) :
  reachable conn -> table_ok conn = true.
Proof.
  induction 1 as [| utcnow conn name expose consume _ IH | conn name _ IH].
  - reflexivity.
  - apply table_ok_upsert, IH.
  - apply table_ok_delete, IH.
Qed.

(** ** Upsert, get and delete *)

(** What [upsert] returns is what it stored. *)
Lemma get_after_upsert (utcnow : datetime) (conn : table) (name : string)
    (expose consume : option bool) :
  let (conn', config) := upsert_shared_folder_config utcnow conn name expose consume in
  get_shared_folder_config conn' name = Some config.
Proof.
  unfold upsert_shared_folder_config, get_shared_folder_config.
  destruct (fetchone (select_config conn name)) as [existing|] eqn:Hsel.
  - rewrite select_update, fetchone_map, Hsel. simpl.
    destruct (fetchone_select_sound _ _ _ Hsel) as [_ Hname].
    unfold where_agent_name. rewrite Hname, String.eqb_refl.
    unfold _row_to_config. simpl. rewrite !bool_of_int_of_bool. reflexivity.
  - unfold insert_config. rewrite select_config_app.
    apply fetchone_none in Hsel. rewrite Hsel. simpl.
    unfold where_agent_name. simpl. rewrite String.eqb_refl. simpl.
    unfold _row_to_config. simpl. rewrite !bool_of_int_of_bool. reflexivity.
Qed.

(** The fields of the configuration [upsert] returns, by case on what
    [get] reported before the call. *)
Lemma upsert_fresh (utcnow : datetime) (conn : table) (name : string)
    (expose consume : option bool) :
  get_shared_folder_config conn name = None ->
  snd (upsert_shared_folder_config utcnow conn name expose consume)
  = Build_SharedFolderConfig name
      (match expose with Some b => b | None => false end)
      (match consume with Some b => b | None => false end)
      utcnow utcnow.
Proof.
  unfold get_shared_folder_config, upsert_shared_folder_config.
  destruct (fetchone (select_config conn name)); [discriminate|].
  intros _. simpl. rewrite fromisoformat_isoformat. reflexivity.
Qed.

Lemma upsert_existing (utcnow : datetime) (conn : table) (name : string)
    (expose consume : option bool) (old : SharedFolderConfig) :
  get_shared_folder_config conn name = Some old ->
  snd (upsert_shared_folder_config utcnow conn name expose consume)
  = Build_SharedFolderConfig name
      (match expose with Some b => b | None => expose_enabled old end)
      (match consume with Some b => b | None => consume_enabled old end)
      (created_at old) utcnow.
Proof.
  unfold get_shared_folder_config, upsert_shared_folder_config.
  destruct (fetchone (select_config conn name)) as [existing|]; [|discriminate].
  intros H. injection H as <-. simpl. rewrite fromisoformat_isoformat. reflexivity.
Qed.

(** Rows of other agents are out of reach of [upsert] and [delete]. *)
Lemma get_other_after_upsert (utcnow : datetime) (conn : table) (name other : string)
    (expose consume : option bool) :
  other <> name ->
  get_shared_folder_config
    (fst (upsert_shared_folder_config utcnow conn name expose consume)) other
  = get_shared_folder_config conn other.
Proof.
  intros Hne. unfold upsert_shared_folder_config, get_shared_folder_config.
  destruct (fetchone (select_config conn name)) as [existing|] eqn:Hsel; simpl.
  - rewrite select_update, fetchone_map.
    destruct (fetchone (select_config conn other)) as [row|] eqn:Hother; simpl; [|reflexivity].
    destruct (fetchone_select_sound _ _ _ Hother) as [_ Hname].
    unfold where_agent_name. rewrite Hname.
    destruct (String.eqb_spec other name); [contradiction | reflexivity].
  - unfold insert_config. rewrite select_config_app.
    assert (Hnew : forall row, ConfigRow.agent_name row = name -> select_config [row] other = []).
    { intros row Hrow. unfold select_config, where_agent_name. simpl. rewrite Hrow.
      destruct (String.eqb_spec name other); [congruence | reflexivity]. }
    rewrite Hnew by reflexivity. rewrite app_nil_r. reflexivity.
Qed.

Lemma select_after_delete (conn : table) (name other : string) :
  select_config (fst (delete_shared_folder_config conn name)) other
  = if (other =? name)%string then [] else select_config conn other.
Proof.
  simpl. unfold select_config, where_agent_name.
  induction conn as [|row conn IH]; simpl.
  - destruct (other =? name)%string; reflexivity.
  - destruct (String.eqb_spec (ConfigRow.agent_name row) name) as [Hrow|Hrow]; simpl.
    + rewrite IH.
      destruct (String.eqb_spec other name) as [Ho|Ho]; [reflexivity|].
      destruct (String.eqb_spec (ConfigRow.agent_name row) other); [congruence | reflexivity].
    + destruct (String.eqb_spec (ConfigRow.agent_name row) other) as [Hro|Hro]; rewrite IH.
      * destruct (String.eqb_spec other name); [congruence | reflexivity].
      * reflexivity.
Qed.

Lemma delete_reports_row (conn : table) (name : string) :
  snd (delete_shared_folder_config conn name)
  = match get_shared_folder_config conn name with Some _ => true | None => false end.
Proof.
  unfold get_shared_folder_config. simpl. fold (select_config conn name).
  destruct (select_config conn name); reflexivity.
Qed.

Lemma created_at_update (conn : table) (e c : bool) (now name : string) :
  map ConfigRow.created_at (update_config conn e c now name) = map ConfigRow.created_at conn.
Proof.
  unfold update_config. rewrite map_map. apply map_ext.
  intros row. destruct (where_agent_name name row); reflexivity.
Qed.

(** C3. Upsert partial-update law: when [get] reports no row for A,
    [upsert] creates one and every unspecified field is false; when it
    reports a row, each provided field overwrites the stored value and each
    unspecified field keeps it; in both cases the configuration returned is
    the one stored.  In particular [upsert(A, expose_enabled=True)] followed
    by [upsert(A, consume_enabled=True)] leaves A with both flags true. *)
Theorem upsert_partial_update (conn : table) (A : string) :
  (forall utcnow expose consume,
      get_shared_folder_config conn A = None ->
      let done := upsert_shared_folder_config utcnow conn A expose consume in
      expose_enabled (snd done) = match expose with Some b => b | None => false end
      /\ consume_enabled (snd done) = match consume with Some b => b | None => false end
      /\ get_shared_folder_config (fst done) A = Some (snd done))
  /\ (forall utcnow expose consume old,
      get_shared_folder_config conn A = Some old ->
      let done := upsert_shared_folder_config utcnow conn A expose consume in
      expose_enabled (snd done)
        = match expose with Some b => b | None => expose_enabled old end
      /\ consume_enabled (snd done)
        = match consume with Some b => b | None => consume_enabled old end
      /\ get_shared_folder_config (fst done) A = Some (snd done))
  /\ (forall now1 now2,
      let first := upsert_shared_folder_config now1 conn A (Some true) None in
      let second := upsert_shared_folder_config now2 (fst first) A None (Some true) in
      expose_enabled (snd second) = true
      /\ consume_enabled (snd second) = true
      /\ get_shared_folder_config (fst second) A = Some (snd second)).
Proof.
  assert (Hstored : forall utcnow table0 expose consume,
    let done := upsert_shared_folder_config utcnow table0 A expose consume in
    get_shared_folder_config (fst done) A = Some (snd done)).
  { intros utcnow table0 expose consume.
    pose proof (get_after_upsert utcnow table0 A expose consume) as H.
    simpl. destruct (upsert_shared_folder_config utcnow table0 A expose consume).
    exact H. }
  split; [|split].
  - intros utcnow expose consume Hnone done. subst done.
    rewrite (upsert_fresh _ _ _ _ _ Hnone) at 1 2. simpl.
    repeat split. apply Hstored.
  - intros utcnow expose consume old Hold done. subst done.
    rewrite (upsert_existing _ _ _ _ _ _ Hold) at 1 2. simpl.
    repeat split. apply Hstored.
  - intros now1 now2 first second.
    assert (Hfirst : get_shared_folder_config (fst first) A = Some (snd first))
      by apply Hstored.
    assert (Hexpose : expose_enabled (snd first) = true).
    { subst first.
      destruct (get_shared_folder_config conn A) as [old|] eqn:Hget.
      - rewrite (upsert_existing _ _ _ _ _ _ Hget). reflexivity.
      - rewrite (upsert_fresh _ _ _ _ _ Hget). reflexivity. }
    subst second.
    rewrite (upsert_existing _ _ _ _ _ _ Hfirst) at 1 2. simpl.
    repeat split; [assumption | apply Hstored].
Qed.

Lemma upsert_partial_update_witness :
  (let done := upsert_shared_folder_config t0 [] "alpha" (Some true) None in
   expose_enabled (snd done) = true
   /\ consume_enabled (snd done) = false
   /\ get_shared_folder_config (fst done) "alpha" = Some (snd done))
  /\ (let done := upsert_shared_folder_config t1 example_table "alpha" None (Some true) in
      expose_enabled (snd done) = true
      /\ consume_enabled (snd done) = true
      /\ get_shared_folder_config (fst done) "alpha" = Some (snd done)).
Proof.
  split.
  - apply (proj1 (upsert_partial_update [] "alpha") t0 (Some true) None).
    reflexivity.
  - apply (proj1 (proj2 (upsert_partial_update example_table "alpha"))
             t1 None (Some true)
             (Build_SharedFolderConfig "alpha" true false t0 t0)).
    reflexivity.
Defined.

(** C5. [delete_shared_folder_config(A)] returns true exactly when [get]
    reported a row for A, which is then gone; on a table without such a
    row it returns false.  Deleting twice in a row therefore answers true
    (if the row was there) and then false. *)
Theorem delete_twice (conn : table) (A : string) :
  let first := delete_shared_folder_config conn A in
  let second := delete_shared_folder_config (fst first) A in
  (snd first = true <-> get_shared_folder_config conn A <> None)
  /\ (snd first = false <-> get_shared_folder_config conn A = None)
  /\ get_shared_folder_config (fst first) A = None
  /\ snd second = false
  /\ (get_shared_folder_config conn A <> None ->
      snd first = true /\ snd second = false).
Proof.
  intros first second.
  assert (Hgone : get_shared_folder_config (fst first) A = None).
  { unfold get_shared_folder_config. subst first.
    rewrite select_after_delete, String.eqb_refl. reflexivity. }
  assert (Hsecond : snd second = false).
  { subst second. rewrite delete_reports_row, Hgone. reflexivity. }
  assert (Hfirst : snd first
                   = match get_shared_folder_config conn A with
                     | Some _ => true | None => false end)
    by apply delete_reports_row.
  repeat split; try assumption;
    destruct (get_shared_folder_config conn A); congruence.
Qed.

Lemma delete_twice_witness :
  get_shared_folder_config example_table "beta" <> None
  /\ snd (delete_shared_folder_config example_table "beta") = true
  /\ snd (delete_shared_folder_config
            (fst (delete_shared_folder_config example_table "beta")) "beta") = false.
Proof.
  assert (H : get_shared_folder_config example_table "beta" <> None)
    by (vm_compute; discriminate).
  split; [exact H|].
  apply (proj2 (proj2 (proj2 (proj2 (delete_twice example_table "beta"))))), H.
Defined.

(** C8. When a row for A exists, [upsert] keeps [created_at] and the
    [agent_name] key and sets [updated_at] to the time of the call, in the
    configuration it returns and in the table: no row changes its name or
    its creation time. *)
Theorem upsert_keeps_created_at (utcnow : datetime) (conn : table) (A : string)
    (expose consume : option bool) (old : SharedFolderConfig) :
  get_shared_folder_config conn A = Some old ->
  let done := upsert_shared_folder_config utcnow conn A expose consume in
  created_at (snd done) = created_at old
  /\ updated_at (snd done) = utcnow
  /\ agent_name (snd done) = agent_name old
  /\ get_shared_folder_config (fst done) A = Some (snd done)
  /\ map ConfigRow.agent_name (fst done) = map ConfigRow.agent_name conn
  /\ map ConfigRow.created_at (fst done) = map ConfigRow.created_at conn.
Proof.
  intros Hold done.
  assert (Hname : agent_name old = A).
  { unfold get_shared_folder_config in Hold.
    destruct (fetchone (select_config conn A)) as [row|] eqn:Hsel; [|discriminate].
    injection Hold as <-. apply (fetchone_select_sound _ _ _ Hsel). }
  assert (Hstored : get_shared_folder_config (fst done) A = Some (snd done)).
  { pose proof (get_after_upsert utcnow conn A expose consume) as H.
    subst done. destruct (upsert_shared_folder_config utcnow conn A expose consume).
    exact H. }
  assert (Hcols : map ConfigRow.agent_name (fst done) = map ConfigRow.agent_name conn
                  /\ map ConfigRow.created_at (fst done) = map ConfigRow.created_at conn).
  { subst done. unfold upsert_shared_folder_config.
    unfold get_shared_folder_config in Hold.
    destruct (fetchone (select_config conn A)); [|discriminate]. simpl.
    split; [apply names_update | apply created_at_update]. }
  subst done. rewrite (upsert_existing _ _ _ _ _ _ Hold) in *. simpl.
  rewrite Hname. repeat split; try assumption; apply Hcols.
Qed.

Lemma upsert_keeps_created_at_witness :
  let old := Build_SharedFolderConfig "alpha" true false t0 t0 in
  let done := upsert_shared_folder_config t1 example_table "alpha" (Some false) None in
  get_shared_folder_config example_table "alpha" = Some old
  /\ created_at (snd done) = t0
  /\ updated_at (snd done) = t1.
Proof.
  intros old done.
  assert (H : get_shared_folder_config example_table "alpha" = Some old)
    by reflexivity.
  split; [exact H|].
  destruct (upsert_keeps_created_at t1 example_table "alpha" (Some false) None old H)
    as [Hc [Hu _]].
  split; [exact Hc | exact Hu].
Defined.

(** C9. Upsert/get round trip: right after [upsert(A, e, c)], [get(A)]
    returns a configuration, and its two flags are those of the
    configuration the call returned. *)
Theorem upsert_get_roundtrip (utcnow : datetime) (conn : table) (A : string)
    (expose consume : option bool) :
  let done := upsert_shared_folder_config utcnow conn A expose consume in
  exists stored,
    get_shared_folder_config (fst done) A = Some stored
    /\ expose_enabled stored = expose_enabled (snd done)
    /\ consume_enabled stored = consume_enabled (snd done).
Proof.
  intros done. exists (snd done).
  pose proof (get_after_upsert utcnow conn A expose consume) as H.
  subst done. destruct (upsert_shared_folder_config utcnow conn A expose consume).
  simpl. auto.
Qed.

(** ** The discovery queries *)

Lemma exposing_rows (conn : table) (B : string) :
  In B (get_agents_exposing_folders conn) <->
  exists row, In row conn /\ ConfigRow.agent_name row = B /\ ConfigRow.expose_enabled row = 1%Z.
Proof.
  unfold get_agents_exposing_folders.
  rewrite order_by_In, in_map_iff. split.
  - intros [row [Hname Hin]]. apply filter_In in Hin. destruct Hin as [Hin Hflag].
    exists row. repeat split; try assumption. apply Z.eqb_eq, Hflag.
  - intros [row [Hin [Hname Hflag]]]. exists row. split; [assumption|].
    apply filter_In. split; [assumption|]. apply Z.eqb_eq, Hflag.
Qed.

Lemma consuming_rows (conn : table) (S C : string) :
  In C (select_consuming_agents conn S) <->
  (exists row, In row conn /\ ConfigRow.agent_name row = C /\ ConfigRow.consume_enabled row = 1%Z)
  /\ C <> S.
Proof.
  unfold select_consuming_agents.
  rewrite order_by_In, in_map_iff. split.
  - intros [row [Hname Hin]]. apply filter_In in Hin. destruct Hin as [Hin Hflag].
    apply andb_true_iff in Hflag. destruct Hflag as [Hflag Hne].
    apply negb_true_iff, String.eqb_neq in Hne. split; [|congruence].
    exists row. repeat split; try assumption. apply Z.eqb_eq, Hflag.
  - intros [[row [Hin [Hname Hflag]]] Hne]. exists row. split; [assumption|].
    apply filter_In. split; [assumption|].
    apply andb_true_iff. split; [apply Z.eqb_eq, Hflag|].
    apply negb_true_iff, String.eqb_neq. congruence.
Qed.

(** On a table that satisfies the invariant the column test [= 1] of the
    queries and the flag [get] reports are the same thing. *)
Lemma exposes_rows (conn : table) (B : string) :
  table_ok conn = true ->
  (exposes conn B <->
   exists row, In row conn /\ ConfigRow.agent_name row = B /\ ConfigRow.expose_enabled row = 1%Z).
Proof.
  intros Hok. unfold exposes, get_shared_folder_config. split.
  - intros [config [Hget Hflag]].
    destruct (fetchone (select_config conn B)) as [row|] eqn:Hsel; [|discriminate].
    injection Hget as <-. simpl in Hflag.
    destruct (fetchone_select_sound _ _ _ Hsel) as [Hin Hname].
    exists row. repeat split; try assumption.
    apply is_flag_true_iff; [|assumption].
    apply (table_ok_flags conn row Hok Hin).
  - intros [row [Hin [Hname Hflag]]].
    exists (_row_to_config row). split.
    + rewrite (proj2 (fetchone_select_iff conn B row Hok) (conj Hin Hname)).
      reflexivity.
    + simpl. rewrite Hflag. reflexivity.
Qed.

Lemma consumes_rows (conn : table) (C : string) :
  table_ok conn = true ->
  (consumes conn C <->
   exists row, In row conn /\ ConfigRow.agent_name row = C /\ ConfigRow.consume_enabled row = 1%Z).
Proof.
  intros Hok. unfold consumes, get_shared_folder_config. split.
  - intros [config [Hget Hflag]].
    destruct (fetchone (select_config conn C)) as [row|] eqn:Hsel; [|discriminate].
    injection Hget as <-. simpl in Hflag.
    destruct (fetchone_select_sound _ _ _ Hsel) as [Hin Hname].
    exists row. repeat split; try assumption.
    apply is_flag_true_iff; [|assumption].
    apply (table_ok_flags conn row Hok Hin).
  - intros [row [Hin [Hname Hflag]]].
    exists (_row_to_config row). split.
    + rewrite (proj2 (fetchone_select_iff conn C row Hok) (conj Hin Hname)).
      reflexivity.
    + simpl. rewrite Hflag. reflexivity.
Qed.

Lemma exposing_NoDup (conn : table) :
  table_ok conn = true -> NoDup (get_agents_exposing_folders conn).
Proof.
  intros Hok. apply table_ok_spec in Hok. destruct Hok as [Hnd _].
  unfold get_agents_exposing_folders.
  eapply Permutation_NoDup; [apply Permutation_sym, order_by_perm|].
  apply NoDup_names_filter, Hnd.
Qed.

Lemma consuming_NoDup (conn : table) (S : string) :
  table_ok conn = true -> NoDup (select_consuming_agents conn S).
Proof.
  intros Hok. apply table_ok_spec in Hok. destruct Hok as [Hnd _].
  unfold select_consuming_agents.
  eapply Permutation_NoDup; [apply Permutation_sym, order_by_perm|].
  apply NoDup_names_filter, Hnd.
Qed.

(** ** The permission loops *)

Section Loops.

Variable is_permitted : string -> string -> result bool.

(** With a directory that answers, the loop is a filter appended to what
    was collected so far. *)
Lemma available_loop_total (p : string -> string -> bool) (A : string)
    (candidates available : list string) :
  available_loop (total p) A candidates available
  = Ok (available
        ++ filter (fun B => negb (B =? A)%string && p A B) candidates).
Proof.
  revert available.
  induction candidates as [|agent rest IH]; intros available; simpl.
  - rewrite app_nil_r. reflexivity.
  - destruct (negb (agent =? A)%string); simpl.
    + destruct (p A agent); rewrite IH; [|reflexivity].
      rewrite <- app_assoc. reflexivity.
    + apply IH.
Qed.

Lemma consuming_loop_total (p : string -> string -> bool) (S : string)
    (candidates available : list string) :
  consuming_loop (total p) S candidates available
  = Ok (available ++ filter (fun C => p C S) candidates).
Proof.
  revert available.
  induction candidates as [|agent rest IH]; intros available; simpl.
  - rewrite app_nil_r. reflexivity.
  - destruct (p agent S); rewrite IH; [|reflexivity].
    rewrite <- app_assoc. reflexivity.
Qed.

(** A lookup that raises on a candidate the loop reaches ends the loop
    with an exception. *)
Lemma available_loop_raises (A B : string) (e : exn)
    (candidates available : list string) :
  In B candidates -> B <> A -> is_permitted A B = Raised e ->
  exists e', available_loop is_permitted A candidates available = Raised e'.
Proof.
  intros Hin Hne Hraise. revert available Hin.
  induction candidates as [|agent rest IH]; intros available Hin; [contradiction|].
  simpl. destruct (String.eqb_spec agent A) as [Hself|Hother]; simpl.
  - destruct Hin as [->|Hin]; [contradiction|]. apply IH, Hin.
  - destruct (is_permitted A agent) as [permitted|e0] eqn:Hlookup; simpl.
    + destruct Hin as [->|Hin]; [congruence|].
      destruct permitted; apply IH, Hin.
    + exists e0. reflexivity.
Qed.

Lemma consuming_loop_raises (S C : string) (e : exn)
    (candidates available : list string) :
  In C candidates -> is_permitted C S = Raised e ->
  exists e', consuming_loop is_permitted S candidates available = Raised e'.
Proof.
  intros Hin Hraise. revert available Hin.
  induction candidates as [|agent rest IH]; intros available Hin; [contradiction|].
  simpl. destruct (is_permitted agent S) as [permitted|e0] eqn:Hlookup; simpl.
  - destruct Hin as [->|Hin]; [congruence|].
    destruct permitted; apply IH, Hin.
  - exists e0. reflexivity.
Qed.



(** The loops look a pair up only when caller and target differ, so a
    second directory that agrees on those pairs drives them the same
    way. *)
Variable is_permitted' : string -> string -> result bool.
Hypothesis agree : forall x y, x <> y -> is_permitted x y = is_permitted' x y.

Lemma available_loop_agree (A : string) (candidates available : list string) :
  available_loop is_permitted A candidates available
  = available_loop is_permitted' A candidates available.
Proof.
  revert available.
  induction candidates as [|agent rest IH]; intros available; simpl; [reflexivity|].
  destruct (String.eqb_spec agent A) as [Hself|Hother]; simpl; [apply IH|].
  rewrite agree by congruence.
  destruct (is_permitted' A agent) as [[|]|e0]; simpl; auto.
Qed.

Lemma consuming_loop_agree (S : string) (candidates available : list string) :
  Forall (fun C => C <> S) candidates ->
  consuming_loop is_permitted S candidates available
  = consuming_loop is_permitted' S candidates available.
Proof.
  intros Hall. revert available.
  induction Hall as [|agent rest Hne _ IH]; intros available; simpl; [reflexivity|].
  rewrite agree by assumption.
  destruct (is_permitted' agent S) as [[|]|e0]; simpl; auto.
Qed.

End Loops.

(** ** The exposure resolver *)

(** C7. [get_agents_exposing_folders] lists exactly the agents whose
    configuration has [expose_enabled] true, each once, in ascending
    byte-wise order of their names; the list depends on the rows of the
    table only, not on the order they are stored or scanned in, so calls
    with no write in between return the same sequence. *)
Theorem agents_exposing_folders_exact (conn : table) :
  table_ok conn = true ->
  (forall B, In B (get_agents_exposing_folders conn) <-> exposes conn B)
  /\ ascending (get_agents_exposing_folders conn)
  /\ NoDup (get_agents_exposing_folders conn)
  /\ (forall conn', Permutation conn conn' ->
        get_agents_exposing_folders conn' = get_agents_exposing_folders conn).
Proof.
  intros Hok. repeat split.
  - intros HB. apply exposes_rows, exposing_rows; assumption.
  - intros HB. apply exposing_rows, exposes_rows; assumption.
  - apply order_by_ascending.
  - apply exposing_NoDup, Hok.
  - intros conn' Hperm. unfold get_agents_exposing_folders.
    apply order_by_scan_order, Permutation_map.
    apply Permutation_sym.
    clear Hok. induction Hperm; simpl.
    + constructor.
    + destruct (ConfigRow.expose_enabled x =? 1)%Z; [apply perm_skip|]; assumption.
    + destruct (ConfigRow.expose_enabled x =? 1)%Z, (ConfigRow.expose_enabled y =? 1)%Z;
        try apply perm_swap; try apply perm_skip; apply Permutation_refl.
    + eapply perm_trans; eassumption.
Qed.

Lemma agents_exposing_folders_exact_witness :
  table_ok example_table = true
  /\ (In "alpha"%string (get_agents_exposing_folders example_table)
      <-> exposes example_table "alpha")
  /\ get_agents_exposing_folders (rev example_table)
     = get_agents_exposing_folders example_table.
Proof.
  assert (Hok : table_ok example_table = true) by reflexivity.
  destruct (agents_exposing_folders_exact example_table Hok) as [Hin [_ [_ Hscan]]].
  split; [exact Hok|]. split; [apply Hin|].
  apply Hscan, Permutation_rev.
Defined.

(** C1. With a permission directory that answers every lookup,
    [get_available_shared_folders(A)] returns exactly the agents B whose
    configuration has [expose_enabled] true, that differ from A and for
    which [is_permitted(A, B)] holds.  The result is the list of
    [get_agents_exposing_folders] with the other entries dropped, so it is
    in the same ascending order, and A is never in it. *)
Theorem available_shared_folders_exact (p : string -> string -> bool)
    (conn : table) (A : string) :
  table_ok conn = true ->
  exists available,
    get_available_shared_folders (total p) conn A = Ok available
    /\ (forall B, In B available <-> exposes conn B /\ B <> A /\ p A B = true)
    /\ available
       = filter (fun B => negb (B =? A)%string && p A B)
                (get_agents_exposing_folders conn)
    /\ ascending available
    /\ ~ In A available.
Proof.
  intros Hok.
  exists (filter (fun B => negb (B =? A)%string && p A B)
                 (get_agents_exposing_folders conn)).
  assert (Hmem : forall B,
    In B (filter (fun B => negb (B =? A)%string && p A B)
                 (get_agents_exposing_folders conn))
    <-> exposes conn B /\ B <> A /\ p A B = true).
  { intros B.
    rewrite filter_In, andb_true_iff, negb_true_iff, String.eqb_neq.
    rewrite (exposes_rows conn B Hok), exposing_rows. reflexivity. }
  split; [|split; [exact Hmem | split; [reflexivity | split]]].
  - unfold get_available_shared_folders. apply available_loop_total.
  - apply ascending_filter, order_by_ascending.
  - intros Hself. apply Hmem in Hself. destruct Hself as [_ [Hne _]].
    apply Hne. reflexivity.
Qed.

Lemma available_shared_folders_exact_witness :
  table_ok example_table = true
  /\ exists available,
       get_available_shared_folders (total example_permissions) example_table "gamma"
       = Ok available
       /\ ~ In "gamma"%string available.
Proof.
  assert (Hok : table_ok example_table = true) by reflexivity.
  split; [exact Hok|].
  destruct (available_shared_folders_exact example_permissions example_table "gamma" Hok)
    as [available [Hrun [_ [_ [_ Hself]]]]].
  exists available. split; [exact Hrun | exact Hself].
Defined.

(** C2. With a permission directory that answers every lookup,
    [get_consuming_agents(S)] returns exactly the agents C whose
    configuration has [consume_enabled] true, that differ from S and for
    which [is_permitted(C, S)] holds: the candidate is the caller and S the
    target.  The result lists each of them once, in ascending byte-wise
    order of the names: it is the ordered result of the query with the
    candidates that are not permitted dropped. *)
Theorem consuming_agents_exact (p : string -> string -> bool)
    (conn : table) (S : string) :
  table_ok conn = true ->
  exists consumers,
    get_consuming_agents (total p) conn S = Ok consumers
    /\ (forall C, In C consumers <-> consumes conn C /\ C <> S /\ p C S = true)
    /\ ascending consumers
    /\ NoDup consumers
    /\ consumers = filter (fun C => p C S) (select_consuming_agents conn S)
    /\ (forall other,
          (forall C, In C other <-> consumes conn C /\ C <> S /\ p C S = true) ->
          ascending other -> NoDup other -> other = consumers).
Proof.
  intros Hok.
  exists (filter (fun C => p C S) (select_consuming_agents conn S)).
  assert (Hmem : forall C,
    In C (filter (fun C => p C S) (select_consuming_agents conn S))
    <-> consumes conn C /\ C <> S /\ p C S = true).
  { intros C. rewrite filter_In, consuming_rows, (consumes_rows conn C Hok).
    split; [intros [[Hrow Hne] Hp] | intros [Hrow [Hne Hp]]]; auto. }
  assert (Hnd : NoDup (filter (fun C => p C S) (select_consuming_agents conn S)))
    by (apply NoDup_filter, consuming_NoDup, Hok).
  assert (Hasc : ascending (filter (fun C => p C S) (select_consuming_agents conn S)))
    by (apply ascending_filter, order_by_ascending).
  split; [|split; [exact Hmem | split; [exact Hasc | split; [exact Hnd | split]]]].
  - unfold get_consuming_agents. apply consuming_loop_total.
  - reflexivity.
  - intros other Hother Hasc' Hnd'.
    apply ascending_unique; try assumption.
    apply NoDup_Permutation; try assumption.
    intros C. rewrite Hother, Hmem. reflexivity.
Qed.

Lemma consuming_agents_exact_witness :
  table_ok example_table = true
  /\ exists consumers,
       get_consuming_agents (total example_permissions) example_table "alpha"
       = Ok consumers
       /\ (In "beta"%string consumers
           <-> consumes example_table "beta" /\ "beta"%string <> "alpha"%string
               /\ example_permissions "beta" "alpha" = true).
Proof.
  assert (Hok : table_ok example_table = true) by reflexivity.
  split; [exact Hok|].
  destruct (consuming_agents_exact example_permissions example_table "alpha" Hok)
    as [consumers [Hrun [Hmem _]]].
  exists consumers. split; [exact Hrun | apply Hmem].
Defined.

(** C10. The resolver never looks up a pair with caller equal to target:
    two permission directories that agree on every pair of distinct agents
    (whether they answer or raise there) give the same results for
    [get_available_shared_folders] and [get_consuming_agents], whatever
    they say about self-edges. *)
Theorem self_permission_never_consulted
    (p1 p2 : string -> string -> result bool) (conn : table) (A S : string) :
  (forall x y, x <> y -> p1 x y = p2 x y) ->
  get_available_shared_folders p1 conn A = get_available_shared_folders p2 conn A
  /\ get_consuming_agents p1 conn S = get_consuming_agents p2 conn S.
Proof.
  intros Hagree. split.
  - unfold get_available_shared_folders. apply available_loop_agree, Hagree.
  - unfold get_consuming_agents. apply consuming_loop_agree; [exact Hagree|].
    apply Forall_forall. intros C HC. apply consuming_rows in HC. apply HC.
Qed.

Lemma self_permission_never_consulted_witness :
  allow_all "alpha" "alpha" <> allow_others "alpha" "alpha"
  /\ get_available_shared_folders (total allow_all) example_table "alpha"
     = get_available_shared_folders (total allow_others) example_table "alpha"
  /\ get_consuming_agents (total allow_all) example_table "gamma"
     = get_consuming_agents (total allow_others) example_table "gamma".
Proof.
  split; [discriminate|].
  apply (self_permission_never_consulted (total allow_all) (total allow_others)).
  intros x y Hne. unfold total, allow_all, allow_others.
  apply String.eqb_neq in Hne. rewrite Hne. reflexivity.
Defined.

(** ** Failing permission lookups *)




(** ** Docker volume names *)

Section Names.

Local Open Scope string_scope.

Lemma append_cancel_l (prefix x y : string) :
  prefix ++ x = prefix ++ y -> x = y.
Proof.
  induction prefix as [|c prefix IH]; simpl; intros H.
  - exact H.
  - injection H as H. apply IH, H.
Qed.

Lemma length_append (x y : string) :
  String.length (x ++ y) = String.length x + String.length y.
Proof.
  induction x as [|c x IH]; simpl; [reflexivity|]. rewrite IH. reflexivity.
Qed.

Lemma append_cancel_r (suffix x y : string) :
  x ++ suffix = y ++ suffix -> x = y.
Proof.
  revert y. induction x as [|c x IH]; intros [|d y] H; simpl in H.
  - reflexivity.
  - apply (f_equal String.length) in H. simpl in H.
    rewrite length_append in H. lia.
  - apply (f_equal String.length) in H. simpl in H.
    rewrite length_append in H. lia.
  - injection H as Hc H. subst d. f_equal. apply IH, H.
Qed.

(** C6. [get_shared_volume_name] is "agent-" + name + "-shared" and
    [get_shared_mount_path] is "/home/developer/shared-in/" + name; they
    are functions of the name alone, and distinct names get distinct
    volume names and distinct mount paths. *)
Theorem shared_names_injective (X Y : string) :
  get_shared_volume_name X = "agent-" ++ X ++ "-shared"
  /\ get_shared_mount_path X = "/home/developer/shared-in/" ++ X
  /\ (X <> Y ->
      get_shared_volume_name X <> get_shared_volume_name Y
      /\ get_shared_mount_path X <> get_shared_mount_path Y).
Proof.
  split; [reflexivity|]. split; [reflexivity|].
  intros Hne. unfold get_shared_volume_name, get_shared_mount_path.
  split; intros H; apply Hne.
  - apply append_cancel_l in H. apply append_cancel_r in H. exact H.
  - apply append_cancel_l in H. exact H.
Qed.

Lemma shared_names_injective_witness :
  "alpha" <> "alpha-shared"
  /\ get_shared_volume_name "alpha" = "agent-alpha-shared"
  /\ get_shared_volume_name "alpha" <> get_shared_volume_name "alpha-shared"
  /\ get_shared_mount_path "alpha" <> get_shared_mount_path "alpha-shared".
Proof.
  assert (Hne : "alpha" <> "alpha-shared") by discriminate.
  destruct (shared_names_injective "alpha" "alpha-shared") as [Hv [_ Hinj]].
  split; [exact Hne|]. split; [exact Hv|]. apply Hinj, Hne.
Defined.

End Names.

(** * Further properties of the registry *)

(** ** Rows out of reach of a write *)

Lemma rows_other_after_update (conn : table) (e c : bool) (now name : string)
    (row : ConfigRow.t) :
  ConfigRow.agent_name row <> name ->
  (In row (update_config conn e c now name) <-> In row conn).
Proof.
  intros Hne. unfold update_config. rewrite in_map_iff. split.
  - intros [r0 [Hr0 Hin]]. unfold where_agent_name in Hr0.
    destruct (String.eqb_spec (ConfigRow.agent_name r0) name) as [Hself|_].
    + subst row. simpl in Hne. contradiction.
    + subst row. exact Hin.
  - intros Hin. exists row. split; [|exact Hin].
    unfold where_agent_name.
    destruct (String.eqb_spec (ConfigRow.agent_name row) name); [contradiction | reflexivity].
Qed.

Lemma rows_other_after_upsert (utcnow : datetime) (conn : table) (name : string)
    (expose consume : option bool) (row : ConfigRow.t) :
  ConfigRow.agent_name row <> name ->
  (In row (fst (upsert_shared_folder_config utcnow conn name expose consume))
   <-> In row conn).
Proof.
  intros Hne. unfold upsert_shared_folder_config.
  destruct (fetchone (select_config conn name)) as [existing|]; simpl.
  - apply rows_other_after_update, Hne.
  - unfold insert_config. rewrite in_app_iff. simpl. split.
    + intros [Hin|[Hnew|[]]]; [exact Hin|]. subst row. simpl in Hne. contradiction.
    + intros Hin. left. exact Hin.
Qed.

Lemma rows_after_delete (conn : table) (name : string) (row : ConfigRow.t) :
  In row (fst (delete_shared_folder_config conn name))
  <-> In row conn /\ ConfigRow.agent_name row <> name.
Proof.
  simpl. rewrite filter_In. unfold where_agent_name.
  rewrite negb_true_iff, String.eqb_neq. reflexivity.
Qed.

Lemma int_of_bool_one (b : bool) : int_of_bool b = 1%Z <-> b = true.
Proof. destruct b; simpl; split; intros; congruence. Qed.

(** The rows [upsert] leaves under the name it was called with all carry
    the flags of the configuration it returns, and there is one. *)
Lemma rows_self_after_upsert (utcnow : datetime) (conn : table) (name : string)
    (expose consume : option bool) :
  let done := upsert_shared_folder_config utcnow conn name expose consume in
  (exists row, In row (fst done) /\ ConfigRow.agent_name row = name)
  /\ (forall row, In row (fst done) -> ConfigRow.agent_name row = name ->
        ConfigRow.expose_enabled row = int_of_bool (expose_enabled (snd done))
        /\ ConfigRow.consume_enabled row = int_of_bool (consume_enabled (snd done))).
Proof.
  unfold upsert_shared_folder_config.
  destruct (fetchone (select_config conn name)) as [existing|] eqn:Hsel; simpl.
  - destruct (fetchone_select_sound _ _ _ Hsel) as [Hin Hname]. split.
    + eexists. split.
      * unfold update_config. apply in_map. exact Hin.
      * unfold where_agent_name. rewrite Hname, String.eqb_refl. reflexivity.
    + intros row Hrow Hrname. unfold update_config in Hrow.
      apply in_map_iff in Hrow. destruct Hrow as [r0 [Hr0 _]].
      unfold where_agent_name in Hr0.
      destruct (String.eqb_spec (ConfigRow.agent_name r0) name) as [_|Hother].
      * subst row. simpl. split; reflexivity.
      * subst row. contradiction.
  - apply fetchone_none in Hsel. split.
    + eexists. split.
      * unfold insert_config. apply in_or_app. right. left. reflexivity.
      * reflexivity.
    + intros row Hrow Hrname. unfold insert_config in Hrow.
      apply in_app_or in Hrow. destruct Hrow as [Hold|[Hnew|[]]].
      * exfalso.
        assert (Hin : In row (select_config conn name)).
        { apply filter_In. split; [exact Hold|]. apply String.eqb_eq, Hrname. }
        rewrite Hsel in Hin. contradiction.
      * subst row. simpl. split; reflexivity.
Qed.

Lemma reachable_example_table : reachable example_table.
Proof.
  unfold example_table. cbv zeta. repeat apply reachable_upsert. constructor.
Qed.

(** X1. Registry invariant: every table obtained from the empty table by
    calls of [upsert_shared_folder_config] and [delete_shared_folder_config]
    has at most one row per agent name and holds 0 or 1 in both flag
    columns. *)
Theorem registry_invariant (conn : table) :
  reachable conn ->
  NoDup (map ConfigRow.agent_name conn)
  /\ Forall (fun row =>
               (ConfigRow.expose_enabled row = 0%Z \/ ConfigRow.expose_enabled row = 1%Z)
               /\ (ConfigRow.consume_enabled row = 0%Z \/ ConfigRow.consume_enabled row = 1%Z))
            conn.
Proof.
  intros Hreach. apply reachable_table_ok, table_ok_spec in Hreach.
  destruct Hreach as [Hnd Hflags]. split; [exact Hnd|].
  eapply Forall_impl; [|exact Hflags].
  intros row [He Hc]. unfold is_flag in He, Hc.
  apply orb_true_iff in He. apply orb_true_iff in Hc.
  rewrite !Z.eqb_eq in He, Hc. split; assumption.
Qed.

Lemma registry_invariant_witness :
  reachable example_table /\ NoDup (map ConfigRow.agent_name example_table).
Proof.
  split; [exact reachable_example_table|].
  apply (registry_invariant example_table reachable_example_table).
Defined.

(** X2. [upsert_shared_folder_config(A, ..)] leaves the configuration of
    every other agent as [get_shared_folder_config] reported it before. *)
Theorem upsert_frame (utcnow : datetime) (conn : table) (A other : string)
    (expose consume : option bool) :
  other <> A ->
  get_shared_folder_config
    (fst (upsert_shared_folder_config utcnow conn A expose consume)) other
  = get_shared_folder_config conn other.
Proof.
  apply get_other_after_upsert.
Qed.

Lemma upsert_frame_witness :
  "alpha"%string <> "beta"%string
  /\ get_shared_folder_config
       (fst (upsert_shared_folder_config t1 example_table "beta" (Some true) (Some false)))
       "alpha"
     = get_shared_folder_config example_table "alpha".
Proof.
  assert (Hne : "alpha"%string <> "beta"%string) by discriminate.
  split; [exact Hne|].
  apply (upsert_frame t1 example_table "beta" "alpha" (Some true) (Some false) Hne).
Defined.

(** X3. [delete_shared_folder_config(A)] leaves the configuration of every
    other agent as it was, and when A has no row the table is returned
    unchanged. *)
Theorem delete_frame (conn : table) (A : string) :
  (forall other, other <> A ->
     get_shared_folder_config (fst (delete_shared_folder_config conn A)) other
     = get_shared_folder_config conn other)
  /\ (get_shared_folder_config conn A = None ->
      fst (delete_shared_folder_config conn A) = conn).
Proof.
  split.
  - intros other Hne. unfold get_shared_folder_config.
    rewrite select_after_delete.
    destruct (String.eqb_spec other A); [contradiction | reflexivity].
  - unfold get_shared_folder_config. intros Hnone. simpl.
    destruct (fetchone (select_config conn A)) eqn:Hsel; [discriminate|].
    apply fetchone_none in Hsel. unfold select_config in Hsel.
    clear Hnone. induction conn as [|row conn IH]; simpl in *; [reflexivity|].
    destruct (where_agent_name A row); simpl; [discriminate|].
    f_equal. apply IH, Hsel.
Qed.

Lemma delete_frame_witness :
  get_shared_folder_config
    (fst (delete_shared_folder_config example_table "beta")) "alpha"
  = get_shared_folder_config example_table "alpha"
  /\ fst (delete_shared_folder_config example_table "delta") = example_table.
Proof.
  split.
  - apply (proj1 (delete_frame example_table "beta") "alpha"%string). discriminate.
  - apply (proj2 (delete_frame example_table "delta")). reflexivity.
Defined.

(** ** How two upserts compose *)

Lemma upsert_table_existing (utcnow : datetime) (conn : table) (name : string)
    (expose consume : option bool) (existing : ConfigRow.t) :
  fetchone (select_config conn name) = Some existing ->
  fst (upsert_shared_folder_config utcnow conn name expose consume)
  = update_config conn
      (match expose with
       | Some b => b | None => bool_of_int (ConfigRow.expose_enabled existing) end)
      (match consume with
       | Some b => b | None => bool_of_int (ConfigRow.consume_enabled existing) end)
      (isoformat utcnow) name.
Proof.
  intros Hsel. unfold upsert_shared_folder_config. rewrite Hsel. reflexivity.
Qed.

Lemma fetchone_after_update (conn : table) (e c : bool) (now name : string)
    (existing : ConfigRow.t) :
  fetchone (select_config conn name) = Some existing ->
  fetchone (select_config (update_config conn e c now name) name)
  = Some (ConfigRow.mk name (int_of_bool e) (int_of_bool c)
            (ConfigRow.created_at existing) now).
Proof.
  intros Hsel. rewrite select_update, fetchone_map, Hsel. simpl.
  destruct (fetchone_select_sound _ _ _ Hsel) as [_ Hname].
  unfold where_agent_name. rewrite Hname, String.eqb_refl. reflexivity.
Qed.

Lemma update_update (conn : table) (e c e' c' : bool) (now now' name : string) :
  update_config (update_config conn e c now name) e' c' now' name
  = update_config conn e' c' now' name.
Proof.
  unfold update_config. rewrite map_map. apply map_ext. intros row.
  unfold where_agent_name.
  destruct (String.eqb_spec (ConfigRow.agent_name row) name) as [Hname|Hname]; simpl.
  - rewrite Hname, String.eqb_refl. reflexivity.
  - destruct (String.eqb_spec (ConfigRow.agent_name row) name); [contradiction | reflexivity].
Qed.

(** X4. Two upserts for the same agent compose into one: the second call
    returns the flags and [updated_at] a single upsert at the later time
    would return when given, for each field, the second value if provided
    and the first otherwise.  When the agent already had a row, the table
    and the whole returned configuration are those of that single
    upsert. *)
Theorem upsert_twice_merges (now1 now2 : datetime) (conn : table) (A : string)
    (e1 c1 e2 c2 : option bool) :
  let first := upsert_shared_folder_config now1 conn A e1 c1 in
  let second := upsert_shared_folder_config now2 (fst first) A e2 c2 in
  let merged :=
    upsert_shared_folder_config now2 conn A
      (match e2 with Some b => Some b | None => e1 end)
      (match c2 with Some b => Some b | None => c1 end) in
  expose_enabled (snd second) = expose_enabled (snd merged)
  /\ consume_enabled (snd second) = consume_enabled (snd merged)
  /\ updated_at (snd second) = updated_at (snd merged)
  /\ (get_shared_folder_config conn A <> None -> second = merged).
Proof.
  intros first second merged.
  assert (Hfirst : get_shared_folder_config (fst first) A = Some (snd first)).
  { pose proof (get_after_upsert now1 conn A e1 c1) as H. subst first.
    destruct (upsert_shared_folder_config now1 conn A e1 c1). exact H. }
  assert (Hsecond := upsert_existing now2 (fst first) A e2 c2 (snd first) Hfirst).
  fold second in Hsecond.
  destruct (get_shared_folder_config conn A) as [old|] eqn:Hget.
  - assert (Hsnd : snd second = snd merged).
    { rewrite Hsecond. subst merged first.
      rewrite (upsert_existing _ _ _ _ _ _ Hget).
      rewrite (upsert_existing _ _ _ _ _ _ Hget).
      destruct e1, e2, c1, c2; reflexivity. }
    rewrite Hsnd. repeat split.
    intros _. apply injective_projections; [|exact Hsnd].
    unfold get_shared_folder_config in Hget.
    destruct (fetchone (select_config conn A)) as [existing|] eqn:Hsel; [|discriminate].
    subst second merged first.
    rewrite (upsert_table_existing now1 conn A e1 c1 existing Hsel).
    erewrite (upsert_table_existing now2 (update_config _ _ _ _ _));
      [|apply fetchone_after_update; exact Hsel].
    rewrite (upsert_table_existing now2 conn A _ _ existing Hsel).
    rewrite update_update. simpl. rewrite !bool_of_int_of_bool.
    destruct e1, e2, c1, c2; reflexivity.
  - rewrite Hsecond. subst merged first.
    rewrite (upsert_fresh _ _ _ _ _ Hget).
    rewrite (upsert_fresh _ _ _ _ _ Hget).
    repeat split; try (destruct e1, e2, c1, c2; reflexivity).
    intros H. exfalso. apply H. reflexivity.
Qed.

Lemma upsert_twice_merges_witness :
  get_shared_folder_config example_table "alpha" <> None
  /\ upsert_shared_folder_config t1
       (fst (upsert_shared_folder_config t0 example_table "alpha" (Some false) None))
       "alpha" None (Some true)
     = upsert_shared_folder_config t1 example_table "alpha" (Some false) (Some true).
Proof.
  assert (H : get_shared_folder_config example_table "alpha" <> None)
    by (vm_compute; discriminate).
  split; [exact H|].
  apply (proj2 (proj2 (proj2
           (upsert_twice_merges t0 t1 example_table "alpha"
              (Some false) None None (Some true)))) H).
Defined.

(** ** The resolver under a directory that may fail *)

Section FailingLookups.

Variable is_permitted : string -> string -> result bool.

(** When every lookup the loop reaches answers, the loop is the fail-closed
    filter. *)
Lemma available_loop_answers (A : string) (candidates available : list string) :
  (forall B, In B candidates -> B <> A -> exists b, is_permitted A B = Ok b) ->
  available_loop is_permitted A candidates available
  = Ok (available
        ++ filter (fun B => negb (B =? A)%string && fail_closed is_permitted A B)
                  candidates).
Proof.
  revert available.
  induction candidates as [|agent rest IH]; intros available Hall; simpl.
  - rewrite app_nil_r. reflexivity.
  - assert (Hrest : forall B, In B rest -> B <> A -> exists b, is_permitted A B = Ok b)
      by (intros B HB; apply Hall; right; exact HB).
    destruct (String.eqb_spec agent A) as [Hself|Hother]; simpl.
    + apply IH, Hrest.
    + destruct (Hall agent (or_introl eq_refl) Hother) as [b Hb].
      unfold fail_closed. rewrite Hb. simpl.
      destruct b; rewrite (IH _ Hrest); [|reflexivity].
      rewrite <- app_assoc. reflexivity.
Qed.

Lemma consuming_loop_answers (S : string) (candidates available : list string) :
  (forall C, In C candidates -> exists b, is_permitted C S = Ok b) ->
  consuming_loop is_permitted S candidates available
  = Ok (available ++ filter (fun C => fail_closed is_permitted C S) candidates).
Proof.
  revert available.
  induction candidates as [|agent rest IH]; intros available Hall; simpl.
  - rewrite app_nil_r. reflexivity.
  - assert (Hrest : forall C, In C rest -> exists b, is_permitted C S = Ok b)
      by (intros C HC; apply Hall; right; exact HC).
    destruct (Hall agent (or_introl eq_refl)) as [b Hb].
    unfold fail_closed. rewrite Hb. simpl.
    destruct b; rewrite (IH _ Hrest); [|reflexivity].
    rewrite <- app_assoc. reflexivity.
Qed.

(** A loop that returned a list met no failing lookup. *)
Lemma available_loop_returned (A : string)
    (candidates available returned : list string) :
  available_loop is_permitted A candidates available = Ok returned ->
  forall B, In B candidates -> B <> A -> exists b, is_permitted A B = Ok b.
Proof.
  intros Hrun B Hin Hne.
  destruct (is_permitted A B) as [b|e] eqn:Hlookup; [exists b; reflexivity|].
  destruct (available_loop_raises is_permitted A B e candidates available Hin Hne Hlookup)
    as [e' He'].
  congruence.
Qed.

Lemma consuming_loop_returned (S : string)
    (candidates available returned : list string) :
  consuming_loop is_permitted S candidates available = Ok returned ->
  forall C, In C candidates -> exists b, is_permitted C S = Ok b.
Proof.
  intros Hrun C Hin.
  destruct (is_permitted C S) as [b|e] eqn:Hlookup; [exists b; reflexivity|].
  destruct (consuming_loop_raises is_permitted S C e candidates available Hin Hlookup)
    as [e' He'].
  congruence.
Qed.

(** The first failing lookup, in the order of the candidates, decides the
    exception. *)
Lemma available_loop_first_failure (A B : string) (e : exn)
    (before after available : list string) :
  (forall C, In C before -> C = A \/ exists b, is_permitted A C = Ok b) ->
  B <> A -> is_permitted A B = Raised e ->
  available_loop is_permitted A (before ++ B :: after) available = Raised e.
Proof.
  intros Hbefore Hne Hraise. revert available.
  induction before as [|agent rest IH]; intros available; simpl.
  - destruct (String.eqb_spec B A); [contradiction|]. simpl.
    rewrite Hraise. reflexivity.
  - assert (Hrest : forall C, In C rest -> C = A \/ exists b, is_permitted A C = Ok b)
      by (intros C HC; apply Hbefore; right; exact HC).
    destruct (String.eqb_spec agent A) as [Hself|Hother]; simpl.
    + apply IH, Hrest.
    + destruct (Hbefore agent (or_introl eq_refl)) as [Hself|[b Hb]]; [contradiction|].
      rewrite Hb. simpl. destruct b; apply IH, Hrest.
Qed.

Lemma consuming_loop_first_failure (S C : string) (e : exn)
    (before after available : list string) :
  (forall D, In D before -> exists b, is_permitted D S = Ok b) ->
  is_permitted C S = Raised e ->
  consuming_loop is_permitted S (before ++ C :: after) available = Raised e.
Proof.
  intros Hbefore Hraise. revert available.
  induction before as [|agent rest IH]; intros available; simpl.
  - rewrite Hraise. reflexivity.
  - assert (Hrest : forall D, In D rest -> exists b, is_permitted D S = Ok b)
      by (intros D HD; apply Hbefore; right; exact HD).
    destruct (Hbefore agent (or_introl eq_refl)) as [b Hb].
    rewrite Hb. simpl. destruct b; apply IH, Hrest.
Qed.

End FailingLookups.

(** X5. [get_available_shared_folders] returns a list exactly when no
    lookup for an exposing agent other than the requester raises, and the
    list is then the exposing agents other than the requester for which
    the lookup answered true, in the order of
    [get_agents_exposing_folders]. *)
Theorem available_returns_iff (is_permitted : string -> string -> result bool)
    (conn : table) (A : string) (available : list string) :
  get_available_shared_folders is_permitted conn A = Ok available
  <-> (forall B, In B (get_agents_exposing_folders conn) -> B <> A ->
         exists b, is_permitted A B = Ok b)
      /\ available = spec_available_mounts is_permitted conn A.
Proof.
  unfold get_available_shared_folders, spec_available_mounts. split.
  - intros Hrun.
    assert (Hall := available_loop_returned is_permitted A _ _ _ Hrun).
    split; [exact Hall|].
    rewrite (available_loop_answers is_permitted A _ [] Hall) in Hrun.
    simpl in Hrun. congruence.
  - intros [Hall ->]. apply (available_loop_answers is_permitted A _ [] Hall).
Qed.

Lemma available_returns_iff_witness :
  get_available_shared_folders failing_permissions example_table "gamma"
  = Ok ["alpha"%string].
Proof.
  apply (proj2 (available_returns_iff failing_permissions example_table
                  "gamma" ["alpha"%string])).
  split; [|reflexivity].
  intros B HB Hne. exists true.
  destruct HB as [<-|[<-|[]]]; [reflexivity | contradiction].
Defined.

(** X6. [get_consuming_agents] returns a list exactly when no lookup for a
    consume-enabled agent other than the source raises, and the list is
    then those candidates for which the lookup (candidate as caller)
    answered true, in ascending order. *)
Theorem consuming_returns_iff (is_permitted : string -> string -> result bool)
    (conn : table) (S : string) (consumers : list string) :
  get_consuming_agents is_permitted conn S = Ok consumers
  <-> (forall C, In C (select_consuming_agents conn S) ->
         exists b, is_permitted C S = Ok b)
      /\ consumers = spec_consumers_of is_permitted conn S.
Proof.
  unfold get_consuming_agents, spec_consumers_of. split.
  - intros Hrun.
    assert (Hall := consuming_loop_returned is_permitted S _ _ _ Hrun).
    split; [exact Hall|].
    rewrite (consuming_loop_answers is_permitted S _ [] Hall) in Hrun.
    simpl in Hrun. congruence.
  - intros [Hall ->]. apply (consuming_loop_answers is_permitted S _ [] Hall).
Qed.

Lemma consuming_returns_iff_witness :
  get_consuming_agents failing_permissions example_table "gamma"
  = Ok ["beta"%string].
Proof.
  apply (proj2 (consuming_returns_iff failing_permissions example_table
                  "gamma" ["beta"%string])).
  split; [|reflexivity].
  intros C HC. exists true.
  destruct HC as [<-|[]]. reflexivity.
Defined.

(** X7. When lookups fail, the exception that leaves
    [get_available_shared_folders] is the one of the first exposing agent,
    in ascending order of names, whose lookup raises; agents before it
    were skipped (the requester) or answered. *)
Theorem available_first_failure (is_permitted : string -> string -> result bool)
    (conn : table) (A B : string) (e : exn) (before after : list string) :
  get_agents_exposing_folders conn = before ++ B :: after ->
  (forall C, In C before -> C = A \/ exists b, is_permitted A C = Ok b) ->
  B <> A -> is_permitted A B = Raised e ->
  get_available_shared_folders is_permitted conn A = Raised e.
Proof.
  intros Hsplit Hbefore Hne Hraise.
  unfold get_available_shared_folders. rewrite Hsplit.
  apply available_loop_first_failure; assumption.
Qed.

Lemma available_first_failure_witness :
  get_available_shared_folders failing_permissions example_table "beta"
  = Raised "permission lookup failed"%string.
Proof.
  apply (available_first_failure failing_permissions example_table
           "beta" "alpha" "permission lookup failed"%string [] ["gamma"%string]).
  - reflexivity.
  - intros C [].
  - discriminate.
  - reflexivity.
Defined.

(** ** Discovery after a write *)

Lemma available_result_spec (is_permitted : string -> string -> result bool)
    (conn : table) (A : string) (available : list string) :
  get_available_shared_folders is_permitted conn A = Ok available ->
  available = spec_available_mounts is_permitted conn A.
Proof.
  unfold get_available_shared_folders, spec_available_mounts. intros Hrun.
  assert (Hall := available_loop_returned is_permitted A _ _ _ Hrun).
  rewrite (available_loop_answers is_permitted A _ [] Hall) in Hrun.
  simpl in Hrun. congruence.
Qed.

Lemma consuming_result_spec (is_permitted : string -> string -> result bool)
    (conn : table) (S : string) (consumers : list string) :
  get_consuming_agents is_permitted conn S = Ok consumers ->
  consumers = spec_consumers_of is_permitted conn S.
Proof.
  unfold get_consuming_agents, spec_consumers_of. intros Hrun.
  assert (Hall := consuming_loop_returned is_permitted S _ _ _ Hrun).
  rewrite (consuming_loop_answers is_permitted S _ [] Hall) in Hrun.
  simpl in Hrun. congruence.
Qed.

(** X8. After [upsert_shared_folder_config(A, ..)] the agent A is listed
    by [get_agents_exposing_folders] exactly when the configuration the
    call returned has [expose_enabled] true, and every other agent is
    listed exactly when it was listed before. *)
Theorem exposing_after_upsert (utcnow : datetime) (conn : table) (A : string)
    (expose consume : option bool) :
  let done := upsert_shared_folder_config utcnow conn A expose consume in
  (In A (get_agents_exposing_folders (fst done))
   <-> expose_enabled (snd done) = true)
  /\ (forall B, B <> A ->
        (In B (get_agents_exposing_folders (fst done))
         <-> In B (get_agents_exposing_folders conn))).
Proof.
  intros done.
  destruct (rows_self_after_upsert utcnow conn A expose consume) as [Hsome Hall].
  fold done in Hsome, Hall. split.
  - rewrite exposing_rows. split.
    + intros [row [Hin [Hname Hflag]]].
      destruct (Hall row Hin Hname) as [He _].
      rewrite He in Hflag. apply int_of_bool_one, Hflag.
    + intros Htrue. destruct Hsome as [row [Hin Hname]].
      exists row. repeat split; try assumption.
      destruct (Hall row Hin Hname) as [He _].
      rewrite He, Htrue. reflexivity.
  - intros B Hne. rewrite !exposing_rows.
    split; intros [row [Hin [Hname Hflag]]]; exists row; repeat split; try assumption;
      assert (Hrow : ConfigRow.agent_name row <> A) by congruence.
    + apply (proj1 (rows_other_after_upsert utcnow conn A expose consume row Hrow)), Hin.
    + apply (proj2 (rows_other_after_upsert utcnow conn A expose consume row Hrow)), Hin.
Qed.

Lemma exposing_after_upsert_witness :
  ~ In "alpha"%string
       (get_agents_exposing_folders
          (fst (upsert_shared_folder_config t1 example_table "alpha" (Some false) None)))
  /\ In "gamma"%string
       (get_agents_exposing_folders
          (fst (upsert_shared_folder_config t1 example_table "alpha" (Some false) None))).
Proof.
  destruct (exposing_after_upsert t1 example_table "alpha" (Some false) None)
    as [Hself Hother].
  split.
  - intros Hin. apply Hself in Hin. discriminate Hin.
  - apply (Hother "gamma"%string); [discriminate|].
    right. left. reflexivity.
Defined.

(** X9. After [delete_shared_folder_config(A)] the agent A is in no
    discovery result: it is not listed by [get_agents_exposing_folders]
    and is in no list that [get_available_shared_folders] or
    [get_consuming_agents] returns, whatever the permission directory
    answers; the listing of every other agent is unchanged. *)
Theorem discovery_after_delete (conn : table) (A : string) :
  let conn' := fst (delete_shared_folder_config conn A) in
  ~ In A (get_agents_exposing_folders conn')
  /\ (forall B, B <> A ->
        (In B (get_agents_exposing_folders conn')
         <-> In B (get_agents_exposing_folders conn)))
  /\ (forall is_permitted R available,
        get_available_shared_folders is_permitted conn' R = Ok available ->
        ~ In A available)
  /\ (forall is_permitted S consumers,
        get_consuming_agents is_permitted conn' S = Ok consumers ->
        ~ In A consumers).
Proof.
  intros conn'.
  assert (Hgone : forall row, In row conn' -> ConfigRow.agent_name row <> A).
  { intros row Hin. apply (rows_after_delete conn A row), Hin. }
  assert (Hexposing : ~ In A (get_agents_exposing_folders conn')).
  { rewrite exposing_rows. intros [row [Hin [Hname _]]]. apply (Hgone row Hin Hname). }
  split; [exact Hexposing|]. split; [|split].
  - intros B Hne. rewrite !exposing_rows.
    split; intros [row [Hin [Hname Hflag]]]; exists row; repeat split; try assumption.
    + apply (rows_after_delete conn A row), Hin.
    + apply (rows_after_delete conn A row). split; [exact Hin | congruence].
  - intros is_permitted R available Hrun Hin.
    rewrite (available_result_spec _ _ _ _ Hrun) in Hin.
    unfold spec_available_mounts in Hin. apply filter_In in Hin.
    apply Hexposing, Hin.
  - intros is_permitted S consumers Hrun Hin.
    rewrite (consuming_result_spec _ _ _ _ Hrun) in Hin.
    unfold spec_consumers_of in Hin. apply filter_In in Hin.
    destruct Hin as [Hin _]. apply consuming_rows in Hin.
    destruct Hin as [[row [Hrow [Hname _]]] _]. apply (Hgone row Hrow Hname).
Qed.

Lemma discovery_after_delete_witness :
  In "gamma"%string
     (get_agents_exposing_folders
        (fst (delete_shared_folder_config example_table "alpha")))
  /\ forall available,
       get_available_shared_folders (total allow_all)
         (fst (delete_shared_folder_config example_table "alpha")) "beta"
       = Ok available ->
       ~ In "alpha"%string available.
Proof.
  destruct (discovery_after_delete example_table "alpha") as [_ [Hother [Havail _]]].
  split.
  - apply (Hother "gamma"%string); [discriminate|]. right. left. reflexivity.
  - intros available. apply Havail.
Defined.

(** X10. The two queries are two views of the same mount edges: on a table
    satisfying the invariant and with a directory that answers, B is in
    [get_available_shared_folders(A)] and A consumes exactly when A is in
    [get_consuming_agents(B)] and B exposes. *)
Theorem mount_edge_two_views (p : string -> string -> bool) (conn : table)
    (A B : string) :
  table_ok conn = true ->
  exists available consumers,
    get_available_shared_folders (total p) conn A = Ok available
    /\ get_consuming_agents (total p) conn B = Ok consumers
    /\ (In B available /\ consumes conn A <-> In A consumers /\ exposes conn B).
Proof.
  intros Hok.
  exists (filter (fun B => negb (B =? A)%string && p A B)
                 (get_agents_exposing_folders conn)).
  exists (filter (fun C => p C B) (select_consuming_agents conn B)).
  split; [apply available_loop_total|]. split; [apply consuming_loop_total|].
  rewrite !filter_In, andb_true_iff, negb_true_iff, String.eqb_neq.
  rewrite consuming_rows, <- (consumes_rows conn A Hok).
  rewrite exposing_rows, <- (exposes_rows conn B Hok).
  split.
  - intros [[Hexp [Hne Hp]] Hcons]. repeat split; try assumption. congruence.
  - intros [[[Hcons Hne] Hp] Hexp]. repeat split; try assumption. congruence.
Qed.

Lemma mount_edge_two_views_witness :
  table_ok example_table = true
  /\ exists available consumers,
       get_available_shared_folders (total example_permissions) example_table "gamma"
       = Ok available
       /\ get_consuming_agents (total example_permissions) example_table "alpha"
          = Ok consumers
       /\ (In "alpha"%string available /\ consumes example_table "gamma"
           <-> In "gamma"%string consumers /\ exposes example_table "alpha").
Proof.
  assert (Hok : table_ok example_table = true) by reflexivity.
  split; [exact Hok|].
  apply (mount_edge_two_views example_permissions example_table "gamma" "alpha" Hok).
Defined.

(** X11. On a table satisfying the invariant, a list returned by
    [get_available_shared_folders] or [get_consuming_agents] names no
    agent twice, whatever the permission directory answers. *)
Theorem discovery_results_NoDup (is_permitted : string -> string -> result bool)
    (conn : table) (A : string) (names : list string) :
  table_ok conn = true ->
  get_available_shared_folders is_permitted conn A = Ok names
  \/ get_consuming_agents is_permitted conn A = Ok names ->
  NoDup names.
Proof.
  intros Hok [Hrun|Hrun].
  - rewrite (available_result_spec _ _ _ _ Hrun).
    apply NoDup_filter, exposing_NoDup, Hok.
  - rewrite (consuming_result_spec _ _ _ _ Hrun).
    apply NoDup_filter, consuming_NoDup, Hok.
Qed.

Lemma discovery_results_NoDup_witness :
  table_ok example_table = true
  /\ get_consuming_agents (total example_permissions) example_table "alpha"
     = Ok ["beta"%string; "gamma"%string]
  /\ NoDup ["beta"%string; "gamma"%string].
Proof.
  assert (Hok : table_ok example_table = true) by reflexivity.
  assert (Hrun : get_consuming_agents (total example_permissions) example_table "alpha"
                 = Ok ["beta"%string; "gamma"%string]) by reflexivity.
  split; [exact Hok|]. split; [exact Hrun|].
  apply (discovery_results_NoDup (total example_permissions) example_table "alpha"
           _ Hok (or_intror Hrun)).
Defined.

(** X12. Granting permissions never removes a mount: if every pair allowed
    by [p] is allowed by [q], each agent [get_available_shared_folders]
    or [get_consuming_agents] returns under [p] is returned under [q]. *)
Theorem discovery_monotone (p q : string -> string -> bool) (conn : table)
    (A : string) :
  (forall x y, p x y = true -> q x y = true) ->
  exists available_p available_q consumers_p consumers_q,
    get_available_shared_folders (total p) conn A = Ok available_p
    /\ get_available_shared_folders (total q) conn A = Ok available_q
    /\ get_consuming_agents (total p) conn A = Ok consumers_p
    /\ get_consuming_agents (total q) conn A = Ok consumers_q
    /\ incl available_p available_q
    /\ incl consumers_p consumers_q.
Proof.
  intros Hpq.
  do 4 eexists.
  split; [apply available_loop_total|]. split; [apply available_loop_total|].
  split; [apply consuming_loop_total|]. split; [apply consuming_loop_total|].
  simpl. split; intros B HB; apply filter_In in HB; apply filter_In;
    destruct HB as [Hin Hp]; (split; [exact Hin|]).
  - apply andb_true_iff in Hp. destruct Hp as [Hne Hp].
    apply andb_true_iff. split; [exact Hne | apply Hpq, Hp].
  - apply Hpq, Hp.
Qed.

Lemma discovery_monotone_witness :
  exists available_p available_q consumers_p consumers_q,
    get_available_shared_folders (total example_permissions) example_table "beta"
    = Ok available_p
    /\ get_available_shared_folders (total allow_all) example_table "beta"
       = Ok available_q
    /\ get_consuming_agents (total example_permissions) example_table "beta"
       = Ok consumers_p
    /\ get_consuming_agents (total allow_all) example_table "beta"
       = Ok consumers_q
    /\ incl available_p available_q
    /\ incl consumers_p consumers_q.
Proof.
  apply (discovery_monotone example_permissions allow_all example_table "beta").
  intros x y _. reflexivity.
Defined.

(** ** An agent's own row *)

Lemma filter_perm {A : Type} (f : A -> bool) (l l' : list A) :
  Permutation l l' -> Permutation (filter f l) (filter f l').
Proof.
  induction 1 as [|x l l' _ IH|x y l|l l' l'' _ IH1 _ IH2]; simpl.
  - constructor.
  - destruct (f x); [apply perm_skip|]; exact IH.
  - destruct (f x), (f y); try apply perm_swap; apply Permutation_refl.
  - eapply perm_trans; eassumption.
Qed.

(** Dropping names before or after [ORDER BY] gives the same list. *)
Lemma order_by_filter (f : string -> bool) (names : list string) :
  filter f (order_by_agent_name names) = order_by_agent_name (filter f names).
Proof.
  apply ascending_unique.
  - apply ascending_filter, order_by_ascending.
  - apply order_by_ascending.
  - eapply perm_trans; [apply filter_perm, order_by_perm|].
    apply Permutation_sym, order_by_perm.
Qed.

Lemma names_without (q : ConfigRow.t -> bool) (conn : table) (name : string) :
  map ConfigRow.agent_name
      (filter q (filter (fun row => negb (where_agent_name name row)) conn))
  = filter (fun other => negb (other =? name)%string)
           (map ConfigRow.agent_name (filter q conn)).
Proof.
  unfold where_agent_name.
  induction conn as [|row conn IH]; simpl; [reflexivity|].
  destruct (ConfigRow.agent_name row =? name)%string eqn:Hname; simpl.
  - destruct (q row); simpl; [rewrite Hname; simpl|]; exact IH.
  - destruct (q row); simpl; [rewrite Hname; simpl; f_equal|]; exact IH.
Qed.

Lemma exposing_without (conn : table) (name : string) :
  get_agents_exposing_folders (fst (delete_shared_folder_config conn name))
  = filter (fun other => negb (other =? name)%string)
           (get_agents_exposing_folders conn).
Proof.
  unfold get_agents_exposing_folders. simpl.
  rewrite order_by_filter, names_without. reflexivity.
Qed.

Lemma consuming_without (conn : table) (S : string) :
  select_consuming_agents (fst (delete_shared_folder_config conn S)) S
  = select_consuming_agents conn S.
Proof.
  unfold select_consuming_agents. simpl. do 2 f_equal.
  unfold where_agent_name.
  induction conn as [|row conn IH]; simpl; [reflexivity|].
  destruct (ConfigRow.agent_name row =? S)%string eqn:Hname; simpl.
  - rewrite andb_false_r. exact IH.
  - rewrite Hname. simpl. rewrite IH. reflexivity.
Qed.

Lemma available_loop_skips_requester
    (is_permitted : string -> string -> result bool) (A : string)
    (candidates available : list string) :
  available_loop is_permitted A
    (filter (fun other => negb (other =? A)%string) candidates) available
  = available_loop is_permitted A candidates available.
Proof.
  revert available.
  induction candidates as [|agent rest IH]; intros available; simpl; [reflexivity|].
  destruct (negb (agent =? A)%string) eqn:Hne; simpl.
  - rewrite Hne. destruct (is_permitted A agent) as [[|]|e]; simpl; auto.
  - apply IH.
Qed.

(** What [upsert] did to the agent's rows is undone by [DELETE]. *)
Lemma delete_after_upsert_table (utcnow : datetime) (conn : table) (name : string)
    (expose consume : option bool) :
  fst (delete_shared_folder_config
         (fst (upsert_shared_folder_config utcnow conn name expose consume)) name)
  = fst (delete_shared_folder_config conn name).
Proof.
  unfold upsert_shared_folder_config.
  destruct (fetchone (select_config conn name)) as [existing|]; simpl.
  - unfold update_config, where_agent_name.
    induction conn as [|row conn IH]; simpl; [reflexivity|].
    destruct (ConfigRow.agent_name row =? name)%string eqn:Hname; simpl;
      rewrite Hname; simpl; [|f_equal]; exact IH.
  - unfold insert_config. rewrite filter_app. simpl.
    unfold where_agent_name at 2. simpl. rewrite String.eqb_refl. simpl.
    apply app_nil_r.
Qed.

Lemma available_ignores_own_row (is_permitted : string -> string -> result bool)
    (conn : table) (A : string) :
  get_available_shared_folders is_permitted
    (fst (delete_shared_folder_config conn A)) A
  = get_available_shared_folders is_permitted conn A.
Proof.
  unfold get_available_shared_folders.
  rewrite exposing_without. apply available_loop_skips_requester.
Qed.

Lemma consuming_ignores_own_row (is_permitted : string -> string -> result bool)
    (conn : table) (S : string) :
  get_consuming_agents is_permitted (fst (delete_shared_folder_config conn S)) S
  = get_consuming_agents is_permitted conn S.
Proof.
  unfold get_consuming_agents. rewrite consuming_without. reflexivity.
Qed.

(** X13. What an agent may mount, and who may mount from it, does not
    depend on the agent's own row: creating, changing or deleting the
    configuration of A changes neither [get_available_shared_folders(A)]
    nor [get_consuming_agents(A)], whatever the permission directory does. *)
Theorem own_configuration_irrelevant
    (is_permitted : string -> string -> result bool) (utcnow : datetime)
    (conn : table) (A : string) (expose consume : option bool) :
  let upserted := fst (upsert_shared_folder_config utcnow conn A expose consume) in
  let deleted := fst (delete_shared_folder_config conn A) in
  get_available_shared_folders is_permitted upserted A
  = get_available_shared_folders is_permitted conn A
  /\ get_consuming_agents is_permitted upserted A
     = get_consuming_agents is_permitted conn A
  /\ get_available_shared_folders is_permitted deleted A
     = get_available_shared_folders is_permitted conn A
  /\ get_consuming_agents is_permitted deleted A
     = get_consuming_agents is_permitted conn A.
Proof.
  intros upserted deleted. repeat split.
  - rewrite <- (available_ignores_own_row is_permitted upserted A).
    subst upserted. rewrite delete_after_upsert_table.
    apply available_ignores_own_row.
  - rewrite <- (consuming_ignores_own_row is_permitted upserted A).
    subst upserted. rewrite delete_after_upsert_table.
    apply consuming_ignores_own_row.
  - apply available_ignores_own_row.
  - apply consuming_ignores_own_row.
Qed.

(** X14. Deleting right after an upsert of the same agent reports a
    removed row and leaves the table that deleting alone would have left:
    the other agents' rows, in their order. *)
Theorem delete_after_upsert (utcnow : datetime) (conn : table) (A : string)
    (expose consume : option bool) :
  let upserted := fst (upsert_shared_folder_config utcnow conn A expose consume) in
  snd (delete_shared_folder_config upserted A) = true
  /\ fst (delete_shared_folder_config upserted A)
     = fst (delete_shared_folder_config conn A).
Proof.
  intros upserted. split; [|apply delete_after_upsert_table].
  rewrite delete_reports_row.
  pose proof (get_after_upsert utcnow conn A expose consume) as H.
  subst upserted. destruct (upsert_shared_folder_config utcnow conn A expose consume).
  simpl. rewrite H. reflexivity.
Qed.

(** X15. Deleting forgets: an upsert that follows a delete of the same
    agent starts from the defaults again, with unspecified flags false and
    [created_at] set to the time of that upsert, whatever the row held
    before. *)
Theorem upsert_after_delete (utcnow : datetime) (conn : table) (A : string)
    (expose consume : option bool) :
  snd (upsert_shared_folder_config utcnow
         (fst (delete_shared_folder_config conn A)) A expose consume)
  = Build_SharedFolderConfig A
      (match expose with Some b => b | None => false end)
      (match consume with Some b => b | None => false end)
      utcnow utcnow.
Proof.
  apply upsert_fresh. unfold get_shared_folder_config.
  rewrite select_after_delete, String.eqb_refl. reflexivity.
Qed.

(** * System settings *)

Section SettingsFacts.

Import SettingsOperations.

Lemma select_key_after_delete (conn : settings_table) (k k' : string) :
  filter (where_key k') (filter (fun row => negb (where_key k row)) conn)
  = if (k' =? k)%string then [] else filter (where_key k') conn.
Proof.
  unfold where_key.
  induction conn as [|row conn IH]; simpl.
  - destruct (k' =? k)%string; reflexivity.
  - destruct (String.eqb_spec (SettingRow.key row) k) as [Hrow|Hrow]; simpl.
    + rewrite IH. destruct (String.eqb_spec k' k) as [Hk|Hk]; [reflexivity|].
      destruct (String.eqb_spec (SettingRow.key row) k'); [congruence | reflexivity].
    + destruct (String.eqb_spec (SettingRow.key row) k') as [Hrk|Hrk]; rewrite IH.
      * destruct (String.eqb_spec k' k); [congruence | reflexivity].
      * reflexivity.
Qed.

Lemma fetchone_key_sound (conn : settings_table) (k : string) (row : SettingRow.t) :
  fetchone (filter (where_key k) conn) = Some row ->
  In row conn /\ SettingRow.key row = k.
Proof.
  intros H.
  assert (Hin : In row (filter (where_key k) conn)).
  { destruct (filter (where_key k) conn); simpl in H; [discriminate|].
    injection H as ->. left; reflexivity. }
  apply filter_In in Hin. destruct Hin as [Hin Hkey].
  split; [exact Hin | apply String.eqb_eq, Hkey].
Qed.

Lemma fetchone_key_complete (conn : settings_table) (k : string) (row : SettingRow.t) :
  NoDup (map SettingRow.key conn) ->
  In row conn -> SettingRow.key row = k ->
  fetchone (filter (where_key k) conn) = Some row.
Proof.
  unfold where_key.
  induction conn as [|first conn IH]; simpl; intros Hnd Hin Hkey; [contradiction|].
  apply NoDup_cons_iff in Hnd. destruct Hnd as [Hfirst Hnd].
  destruct (String.eqb_spec (SettingRow.key first) k) as [Heq|Hne].
  - destruct Hin as [->|Hin]; [reflexivity|].
    exfalso. apply Hfirst. rewrite Heq, <- Hkey. apply in_map, Hin.
  - destruct Hin as [->|Hin]; [contradiction|]. apply IH; assumption.
Qed.

Lemma get_after_set_setting (utcnow : datetime) (conn : settings_table)
    (k v k' : string) :
  let done := set_setting utcnow conn k v in
  snd done = SystemSetting.mk k v utcnow
  /\ get_setting (fst done) k'
     = if (k' =? k)%string then Some (snd done) else get_setting conn k'.
Proof.
  unfold set_setting. cbv zeta. simpl fst. simpl snd.
  rewrite fromisoformat_isoformat. split; [reflexivity|].
  unfold get_setting, insert_or_replace_setting.
  rewrite filter_app, select_key_after_delete.
  assert (Hnew : filter (where_key k') [SettingRow.mk k v (isoformat utcnow)]
                 = if (k' =? k)%string
                   then [SettingRow.mk k v (isoformat utcnow)] else []).
  { unfold where_key. simpl. rewrite (String.eqb_sym k k').
    destruct (k' =? k)%string; reflexivity. }
  rewrite Hnew. destruct (k' =? k)%string; simpl.
  - unfold _row_to_setting. simpl. rewrite fromisoformat_isoformat. reflexivity.
  - rewrite app_nil_r. reflexivity.
Qed.

Lemma get_after_delete_setting (conn : settings_table) (k k' : string) :
  let done := delete_setting conn k in
  snd done = match get_setting conn k with Some _ => true | None => false end
  /\ get_setting (fst done) k'
     = if (k' =? k)%string then None else get_setting conn k'.
Proof.
  simpl. unfold get_setting. split.
  - destruct (filter (where_key k) conn); reflexivity.
  - rewrite select_key_after_delete. destruct (k' =? k)%string; reflexivity.
Qed.

(** X16. [set_setting(key, value)] returns the setting with that key and
    value and the time of the call; afterwards [get_setting] returns that
    setting for the key, whatever was stored before, and what it returned
    before for every other key. *)
Theorem set_setting_get (utcnow : datetime) (conn : settings_table)
    (k v k' : string) :
  let done := set_setting utcnow conn k v in
  snd done = SystemSetting.mk k v utcnow
  /\ get_setting (fst done) k'
     = if (k' =? k)%string then Some (snd done) else get_setting conn k'.
Proof.
  apply get_after_set_setting.
Qed.

(** X17. [delete_setting(key)] returns true exactly when [get_setting]
    reported a setting for the key; afterwards [get_setting] returns None
    for that key and what it returned before for every other key, so a
    second delete of the key returns false. *)
Theorem delete_setting_get (conn : settings_table) (k k' : string) :
  let done := delete_setting conn k in
  snd done = match get_setting conn k with Some _ => true | None => false end
  /\ get_setting (fst done) k'
     = (if (k' =? k)%string then None else get_setting conn k')
  /\ snd (delete_setting (fst done) k) = false.
Proof.
  intros done.
  destruct (get_after_delete_setting conn k k') as [Hret Hget].
  split; [exact Hret|]. split; [exact Hget|].
  destruct (get_after_delete_setting (fst done) k k) as [Hret2 _].
  rewrite Hret2.
  destruct (get_after_delete_setting conn k k) as [_ Hgone].
  fold done in Hgone. rewrite Hgone, String.eqb_refl. reflexivity.
Qed.

(** *** [ORDER BY key] *)

Lemma insert_by_key_perm (row : SettingRow.t) (rows : list SettingRow.t) :
  Permutation (insert_by_key row rows) (row :: rows).
Proof.
  induction rows as [|head rest IH]; simpl.
  - apply Permutation_refl.
  - destruct (SettingRow.key row <=? SettingRow.key head)%string.
    + apply Permutation_refl.
    + eapply perm_trans; [apply perm_skip, IH | apply perm_swap].
Qed.

Lemma order_by_key_perm (rows : list SettingRow.t) :
  Permutation (order_by_key rows) rows.
Proof.
  induction rows as [|row rest IH]; simpl.
  - constructor.
  - eapply perm_trans; [apply insert_by_key_perm | apply perm_skip, IH].
Qed.

(** Sorting the rows by key sorts their keys. *)
Lemma keys_order_by_key (rows : list SettingRow.t) :
  map SettingRow.key (order_by_key rows)
  = order_by_agent_name (map SettingRow.key rows).
Proof.
  induction rows as [|row rest IH]; simpl; [reflexivity|].
  rewrite <- IH. generalize (order_by_key rest). intros sorted.
  induction sorted as [|head tail IHs]; simpl; [reflexivity|].
  destruct (SettingRow.key row <=? SettingRow.key head)%string; simpl;
    [reflexivity | rewrite IHs; reflexivity].
Qed.

Lemma keys_of_settings (rows : list SettingRow.t) :
  map SystemSetting.key (map _row_to_setting rows) = map SettingRow.key rows.
Proof. rewrite map_map. reflexivity. Qed.

(** X19. [get_all_settings] returns the stored settings, each row once,
    in ascending byte-wise order of the keys; when the keys are distinct,
    a setting is in the list exactly when [get_setting] returns it for its
    key. *)
Theorem get_all_settings_sorted (conn : settings_table) :
  ascending (map SystemSetting.key (get_all_settings conn))
  /\ Permutation (get_all_settings conn) (map _row_to_setting conn)
  /\ (NoDup (map SettingRow.key conn) ->
      forall s, In s (get_all_settings conn)
                <-> get_setting conn (SystemSetting.key s) = Some s).
Proof.
  unfold get_all_settings. split; [|split].
  - rewrite keys_of_settings, keys_order_by_key. apply order_by_ascending.
  - apply Permutation_map, order_by_key_perm.
  - intros Hnd s. rewrite in_map_iff. unfold get_setting. split.
    + intros [row [Hs Hin]].
      apply (Permutation_in _ (order_by_key_perm conn)) in Hin.
      rewrite (fetchone_key_complete conn (SystemSetting.key s) row Hnd Hin).
      * rewrite Hs. reflexivity.
      * rewrite <- Hs. reflexivity.
    + destruct (fetchone (filter (where_key (SystemSetting.key s)) conn))
        as [row|] eqn:Hsel; [|discriminate].
      intros Hs. injection Hs as Hs. exists row. split; [exact Hs|].
      apply (Permutation_in _ (Permutation_sym (order_by_key_perm conn))).
      apply (fetchone_key_sound _ _ _ Hsel).
Qed.

Lemma get_all_settings_sorted_witness :
  NoDup (map SettingRow.key example_settings)
  /\ (In (SystemSetting.mk "banner" "hello" t0) (get_all_settings example_settings)
      <-> get_setting example_settings "banner"
          = Some (SystemSetting.mk "banner" "hello" t0)).
Proof.
  assert (Hnd : NoDup (map SettingRow.key example_settings)).
  { apply unique_names_NoDup. reflexivity. }
  split; [exact Hnd|].
  apply (proj2 (proj2 (get_all_settings_sorted example_settings)) Hnd
           (SystemSetting.mk "banner" "hello" t0)).
Defined.

End SettingsFacts.

(** ** The settings dictionary *)

Section SettingsDict.

Import SettingsOperations.

Lemma dict_get_setitem (d : pydict) (k v k' : string) :
  dict_get (dict_setitem d k v) k'
  = if (k =? k')%string then Some v else dict_get d k'.
Proof.
  induction d as [|[k0 v0] rest IH]; simpl.
  - reflexivity.
  - destruct (String.eqb_spec k0 k) as [->|Hne]; simpl.
    + destruct (k =? k')%string; reflexivity.
    + rewrite IH. destruct (String.eqb_spec k0 k') as [->|Hne'].
      * destruct (String.eqb_spec k k'); [congruence | reflexivity].
      * reflexivity.
Qed.

(** Looking a key up after a comprehension finds the last item written
    under that key. *)
Lemma dict_get_comprehension (settings : list SystemSetting.t) (d : pydict)
    (k : string) :
  dict_get
    (fold_left (fun d s => dict_setitem d (SystemSetting.key s) (SystemSetting.value s))
               settings d) k
  = match find (fun s => (SystemSetting.key s =? k)%string) (rev settings) with
    | Some s => Some (SystemSetting.value s)
    | None => dict_get d k
    end.
Proof.
  induction settings as [|s settings IH] using rev_ind; simpl; [reflexivity|].
  rewrite fold_left_app, rev_app_distr. simpl.
  rewrite dict_get_setitem, IH.
  destruct (SystemSetting.key s =? k)%string; reflexivity.
Qed.

Lemma find_unique_key (settings : list SystemSetting.t) (s : SystemSetting.t) :
  NoDup (map SystemSetting.key settings) -> In s settings ->
  find (fun s' => (SystemSetting.key s' =? SystemSetting.key s)%string) settings
  = Some s.
Proof.
  induction settings as [|first rest IH]; simpl; intros Hnd Hin; [contradiction|].
  apply NoDup_cons_iff in Hnd. destruct Hnd as [Hfirst Hnd].
  destruct (String.eqb_spec (SystemSetting.key first) (SystemSetting.key s)) as [Heq|Hne].
  - destruct Hin as [->|Hin]; [reflexivity|].
    exfalso. apply Hfirst. rewrite Heq. apply in_map, Hin.
  - destruct Hin as [->|Hin]; [contradiction|]. apply IH; assumption.
Qed.

(** X20. With distinct keys in the table, looking a key up in
    [get_settings_dict()] gives what [get_setting_value(key)] gives with
    the default [None]: the stored value, or nothing when the key has no
    setting. *)
Theorem settings_dict_lookup (conn : settings_table) (k : string) :
  NoDup (map SettingRow.key conn) ->
  dict_get (get_settings_dict conn) k = get_setting_value conn k None.
Proof.
  intros Hnd. unfold get_settings_dict, get_setting_value.
  rewrite dict_get_comprehension. simpl.
  assert (Hperm : Permutation (rev (get_all_settings conn)) (map _row_to_setting conn)).
  { eapply perm_trans; [apply Permutation_sym, Permutation_rev|].
    unfold get_all_settings. apply Permutation_map, order_by_key_perm. }
  assert (Hkeys : NoDup (map SystemSetting.key (rev (get_all_settings conn)))).
  { eapply Permutation_NoDup.
    - apply Permutation_map, Permutation_sym, Hperm.
    - rewrite keys_of_settings. exact Hnd. }
  unfold get_setting.
  destruct (fetchone (filter (where_key k) conn)) as [row|] eqn:Hsel.
  - destruct (fetchone_key_sound _ _ _ Hsel) as [Hin Hkey].
    assert (Hs : In (_row_to_setting row) (rev (get_all_settings conn))).
    { apply (Permutation_in _ (Permutation_sym Hperm)), in_map, Hin. }
    pose proof (find_unique_key _ _ Hkeys Hs) as Hfind.
    simpl in Hfind. rewrite Hkey in Hfind. rewrite Hfind. reflexivity.
  - destruct (find (fun s => (SystemSetting.key s =? k)%string)
                   (rev (get_all_settings conn))) as [s|] eqn:Hfind; [|reflexivity].
    exfalso. apply find_some in Hfind. destruct Hfind as [Hin Hkey].
    apply (Permutation_in _ Hperm) in Hin. apply in_map_iff in Hin.
    destruct Hin as [row [Hs Hrow]]. subst s. simpl in Hkey.
    apply fetchone_none in Hsel.
    assert (Hsel' : In row (filter (where_key k) conn)).
    { apply filter_In. split; [exact Hrow | exact Hkey]. }
    rewrite Hsel in Hsel'. contradiction.
Qed.

Lemma settings_dict_lookup_witness :
  NoDup (map SettingRow.key example_settings)
  /\ dict_get (get_settings_dict example_settings) "trinity_prompt"
     = get_setting_value example_settings "trinity_prompt" None.
Proof.
  assert (Hnd : NoDup (map SettingRow.key example_settings)).
  { apply unique_names_NoDup. reflexivity. }
  split; [exact Hnd|].
  apply (settings_dict_lookup example_settings "trinity_prompt" Hnd).
Defined.

End SettingsDict.

(** * Settings routes *)

Section SettingsRoutes.

Variable http_exception_str : Z -> string -> string.
Variable audit_failure : AuditEvent.t -> option pyexn.

Lemma require_admin_denies (current_user : User.t) :
  User.role current_user <> "admin"%string ->
  SettingsRouter.require_admin current_user
  = HTTPException 403 "Admin access required".
Proof.
  intros Hrole. unfold SettingsRouter.require_admin.
  apply String.eqb_neq in Hrole. rewrite Hrole. reflexivity.
Qed.

Lemma require_admin_allows (current_user : User.t) :
  User.role current_user = "admin"%string ->
  SettingsRouter.require_admin current_user = Returned tt.
Proof.
  intros Hrole. unfold SettingsRouter.require_admin.
  rewrite Hrole. reflexivity.
Qed.

(** An [HTTPException] that [propagate] yields is the one raised. *)
Lemma propagate_http {A : Type} (e : pyexn) (status_code : Z) (detail : string) :
  @propagate A e = HTTPException status_code detail ->
  e = PyHTTPException status_code detail.
Proof.
  destruct e; simpl; intros H; [injection H as -> ->; reflexivity | discriminate].
Qed.

(** X21. Admin gate: for a user whose role is not "admin", each of the
    four settings routes raises [HTTPException(403, "Admin access
    required")], and neither the settings table nor the audit trail
    changes. *)
Theorem settings_routes_admin_only (utcnow : datetime) (key value : string)
    (request : Request.t) (current_user : User.t) (state : backend) :
  User.role current_user <> "admin"%string ->
  SettingsRouter.get_all_settings http_exception_str audit_failure
    request current_user state
  = (state, HTTPException 403 "Admin access required")
  /\ SettingsRouter.get_setting http_exception_str audit_failure
       key request current_user state
     = (state, HTTPException 403 "Admin access required")
  /\ SettingsRouter.update_setting http_exception_str audit_failure
       utcnow key value request current_user state
     = (state, HTTPException 403 "Admin access required")
  /\ SettingsRouter.delete_setting http_exception_str audit_failure
       key request current_user state
     = (state, HTTPException 403 "Admin access required").
Proof.
  intros Hrole.
  unfold SettingsRouter.get_all_settings, SettingsRouter.get_setting,
    SettingsRouter.update_setting, SettingsRouter.delete_setting.
  rewrite (require_admin_denies current_user Hrole). repeat split.
Qed.

(** X22. The read routes never write: whoever calls them and whatever the
    audit sink does, [get_all_settings] and [get_setting] leave the
    settings table as it was, and [get_setting] for a key without a
    setting answers 404 to an admin without recording an audit event. *)
Theorem settings_read_routes (key : string) (request : Request.t)
    (current_user : User.t) (state : backend) :
  db (fst (SettingsRouter.get_all_settings http_exception_str audit_failure
             request current_user state))
  = db state
  /\ db (fst (SettingsRouter.get_setting http_exception_str audit_failure
                key request current_user state))
     = db state
  /\ (User.role current_user = "admin"%string ->
      SettingsOperations.get_setting (db state) key = None ->
      SettingsRouter.get_setting http_exception_str audit_failure
        key request current_user state
      = (state, HTTPException 404 ("Setting '" ++ key ++ "' not found")%string)).
Proof.
  unfold SettingsRouter.get_all_settings, SettingsRouter.get_setting,
    SettingsRouter.log_audit_event.
  repeat split.
  - destruct (SettingsRouter.require_admin current_user); try reflexivity.
    destruct (audit_failure _); reflexivity.
  - destruct (SettingsRouter.require_admin current_user); try reflexivity.
    destruct (SettingsOperations.get_setting (db state) key); try reflexivity.
    destruct (audit_failure _) as [[|]|]; reflexivity.
  - intros Hrole Hnone. rewrite (require_admin_allows current_user Hrole), Hnone.
    reflexivity.
Qed.

(** X23. For an admin, [get_setting] on a stored key returns the stored
    setting and records one "read" event when the audit sink accepts it.
    When the sink raises an [HTTPException], that exception leaves the
    route with its own status and detail; when it raises anything else,
    the route answers 500 with the sink's message.  In both failing cases
    nothing is recorded. *)
Theorem get_setting_route_found (key : string) (request : Request.t)
    (current_user : User.t) (state : backend) (setting : SystemSetting.t) :
  User.role current_user = "admin"%string ->
  SettingsOperations.get_setting (db state) key = Some setting ->
  let event :=
    AuditEvent.mk "system_settings" "read" (User.username current_user)
      (Some ("setting:" ++ key)%string) (SettingsRouter.ip_address request)
      "success" None None in
  SettingsRouter.get_setting http_exception_str audit_failure
    key request current_user state
  = match audit_failure event with
    | None =>
        ({| db := db state; audit_trail := audit_trail state ++ [event] |},
         Returned setting)
    | Some (PyHTTPException status_code detail) =>
        (state, HTTPException status_code detail)
    | Some (PyException message) =>
        (state, HTTPException 500 ("Failed to get setting: " ++ message)%string)
    end.
Proof.
  intros Hrole Hget event.
  unfold SettingsRouter.get_setting, SettingsRouter.log_audit_event.
  rewrite (require_admin_allows current_user Hrole), Hget.
  fold event. destruct (audit_failure event) as [[|]|]; reflexivity.
Qed.


(** X25. An admin's [delete_setting] removes the setting whatever the
    audit sink does.  When the route returns, its body is [success: True]
    with [deleted] telling whether the key had a setting: a missing key
    is no error of the route.  An [HTTPException] that leaves the route is
    either the route's own 500 or an [HTTPException] that the sink itself
    raised. *)
Theorem delete_setting_route (key : string) (request : Request.t)
    (current_user : User.t) (state : backend) :
  User.role current_user = "admin"%string ->
  let done :=
    SettingsRouter.delete_setting http_exception_str audit_failure
      key request current_user state in
  let existed :=
    match SettingsOperations.get_setting (db state) key with
    | Some _ => true
    | None => false
    end in
  let event :=
    AuditEvent.mk "system_settings" "delete" (User.username current_user)
      (Some ("setting:" ++ key)%string) (SettingsRouter.ip_address request)
      "success" None (Some [("deleted"%string, PyBool existed)]) in
  SettingsOperations.get_setting (db (fst done)) key = None
  /\ (snd done
      = Returned [("success"%string, PyBool true); ("deleted"%string, PyBool existed)]
      <-> audit_failure event = None)
  /\ (forall body, snd done = Returned body ->
        body = [("success"%string, PyBool true); ("deleted"%string, PyBool existed)])
  /\ (forall status_code detail,
        snd done = HTTPException status_code detail ->
        (status_code = 500%Z
         /\ exists e, audit_failure event = Some e
                      /\ detail = ("Failed to delete setting: "
                                   ++ SettingsRouter.py_str http_exception_str e)%string)
        \/ exists failed_event,
             audit_failure failed_event = Some (PyHTTPException status_code detail)).
Proof.
  intros Hrole done existed event.
  destruct (get_after_delete_setting (db state) key key) as [Hret Hgone].
  rewrite String.eqb_refl in Hgone. fold existed in Hret.
  subst done. unfold SettingsRouter.delete_setting, SettingsRouter.log_audit_event.
  rewrite (require_admin_allows current_user Hrole).
  destruct (SettingsOperations.delete_setting (db state) key) as [db' deleted] eqn:Hdel.
  simpl in Hret, Hgone. subst deleted. fold event.
  destruct (audit_failure event) as [e|] eqn:Hfirst; simpl.
  - match goal with
    | |- context [audit_failure ?ev] =>
        destruct (audit_failure ev) as [e'|] eqn:Hsecond; simpl
    end.
    + split; [exact Hgone|]. split; [|split].
      * split; [destruct e'; discriminate | discriminate].
      * intros body Hout. destruct e'; discriminate.
      * intros status_code detail Hout. right.
        apply propagate_http in Hout. subst e'. eexists. exact Hsecond.
    + split; [exact Hgone|]. split; [|split].
      * split; discriminate.
      * intros body Hout. discriminate.
      * intros status_code detail Hout. injection Hout as <- <-.
        left. split; [reflexivity|]. exists e. split; reflexivity.
  - split; [exact Hgone|]. split; [|split].
    + split; reflexivity.
    + intros body Hout. injection Hout as <-. reflexivity.
    + intros status_code detail Hout. discriminate.
Qed.

End SettingsRoutes.

Lemma settings_routes_admin_only_witness :
  User.role plain_user <> "admin"%string
  /\ SettingsRouter.update_setting status_and_detail audit_up t1 "banner" "bye"
       local_request plain_user example_backend
     = (example_backend, HTTPException 403 "Admin access required").
Proof.
  assert (Hrole : User.role plain_user <> "admin"%string) by discriminate.
  split; [exact Hrole|].
  apply (settings_routes_admin_only status_and_detail audit_up t1 "banner" "bye"
           local_request plain_user example_backend Hrole).
Defined.

Lemma settings_read_routes_witness :
  User.role admin_user = "admin"%string
  /\ SettingsOperations.get_setting (db example_backend) "missing" = None
  /\ SettingsRouter.get_setting status_and_detail audit_down "missing"
       local_request admin_user example_backend
     = (example_backend, HTTPException 404 "Setting 'missing' not found").
Proof.
  split; [reflexivity|]. split; [reflexivity|].
  apply (proj2 (proj2 (settings_read_routes status_and_detail audit_down "missing"
                         local_request admin_user example_backend)));
    reflexivity.
Defined.

Lemma get_setting_route_found_witness :
  SettingsRouter.get_setting status_and_detail audit_down "banner"
    local_request admin_user example_backend
  = (example_backend,
     HTTPException 500 "Failed to get setting: audit logger unreachable")
  /\ SettingsRouter.get_setting status_and_detail audit_rejecting "banner"
       local_request admin_user example_backend
     = (example_backend, HTTPException 404 "audit stream not found").
Proof.
  split.
  - apply (get_setting_route_found status_and_detail audit_down "banner"
             local_request admin_user example_backend
             (SystemSetting.mk "banner" "hello" t0));
      reflexivity.
  - apply (get_setting_route_found status_and_detail audit_rejecting "banner"
             local_request admin_user example_backend
             (SystemSetting.mk "banner" "hello" t0));
      reflexivity.
Defined.


Lemma delete_setting_route_witness :
  User.role admin_user = "admin"%string
  /\ snd (SettingsRouter.delete_setting status_and_detail audit_rejecting
            "banner" local_request admin_user example_backend)
     = HTTPException 404 "audit stream not found"
  /\ SettingsOperations.get_setting
       (db (fst (SettingsRouter.delete_setting status_and_detail audit_rejecting
                   "banner" local_request admin_user example_backend)))
       "banner"
     = None.
Proof.
  assert (Hrole : User.role admin_user = "admin"%string) by reflexivity.
  split; [exact Hrole|]. split; [reflexivity|].
  apply (delete_setting_route status_and_detail audit_rejecting "banner"
           local_request admin_user example_backend Hrole).
Defined.
